(** * Stroke preprocessing and the DoodleNet classifier

    A shallow embedding of [scale-ai/training/preprocess.py] and
    [scale-ai/training/model.py].

    - Python objects obtained from [json.loads] are the inductive type
      [value]; a Python [str] is a [string] whose characters are code
      points below 256.
    - Python exceptions are the constructors of [exn]; a computation that
      may raise lives in the error monad [result].
    - A Python [float] is an IEEE-754 binary64 number and a NumPy
      [float32] a binary32 number, both given by [SpecFloat] with the
      matching precision and exponent range.
    - Pillow's line drawing and resampling and NumPy's generator are
      libraries: they are parameters of the sections that use them.
    - torch is a library too: its modules, with the state they read and
      update, and its softmax kernel are the fields of [Torch]; the
      reduction [max] and strict loading follow its documented
      behaviour, on float32 rows and on state dicts. *)

From Stdlib Require Import ZArith List String Ascii Bool Lia.
From Stdlib Require Import Floats.SpecFloat.
Import ListNotations.

Set Warnings "-register-all".

Local Open Scope string_scope.
Local Open Scope Z_scope.

(** ** Exceptions and the error monad *)

Inductive exn : Type :=
  | ValueError
  | TypeError
  | KeyError
  | AttributeError
  | IndexError
  | ZeroDivisionError
  | OverflowError
  | RuntimeError.

Inductive result (A : Type) : Type :=
  | Ok (a : A)
  | Raise (e : exn).

Arguments Ok {A} a.
Arguments Raise {A} e.

Definition bind {A B : Type} (m : result A) (k : A -> result B) : result B :=
  match m with
  | Ok a => k a
  | Raise e => Raise e
  end.

Notation "x <- m ;; k" := (bind m (fun x => k))
  (at level 61, m at next level, right associativity).

Definition raises {A : Type} (m : result A) : Prop :=
  exists e, m = Raise e.

Definition returns {A : Type} (m : result A) : Prop :=
  exists a, m = Ok a.

(** ** Floating point: binary64 for Python, binary32 for NumPy float32 *)

Module F64.
Definition prec : Z := 53.
Definition emax : Z := 1024.

Definition mul := SFmul prec emax.
Definition add := SFadd prec emax.
Definition div := SFdiv prec emax.
Definition of_Z (z : Z) : spec_float := binary_normalize prec emax z 0 false.
Definition zero : spec_float := S754_zero false.
End F64.

Module F32.
Definition prec : Z := 24.
Definition emax : Z := 128.

Definition sub := SFsub prec emax.
Definition div := SFdiv prec emax.
Definition of_Z (z : Z) : spec_float := binary_normalize prec emax z 0 false.

Definition zero : spec_float := S754_zero false.
Definition one : spec_float := of_Z 1.
Definition c255 : spec_float := of_Z 255.
End F32.

Definition is_infinite (f : spec_float) : bool :=
  match f with
  | S754_infinity _ => true
  | _ => false
  end.

Definition is_zero (f : spec_float) : bool :=
  match f with
  | S754_zero _ => true
  | _ => false
  end.

(** [float(z)] for a Python int: the nearest binary64, [OverflowError] when
    the int is too large. *)
Definition float_of_int (z : Z) : result spec_float :=
  let f := F64.of_Z z in
  if is_infinite f then Raise OverflowError else Ok f.

(** An int as an exact (not normalised) operand of a binary division. *)
Definition exact_operand (z : Z) : spec_float :=
  match z with
  | Z0 => S754_zero false
  | Zpos p => S754_finite false p 0
  | Zneg p => S754_finite true p 0
  end.

(** The correctly rounded quotient of two ints; a float literal such as
    [0.9] is [ratio 9 10]. *)
Definition ratio (a b : Z) : spec_float :=
  F64.div (exact_operand a) (exact_operand b).

(** [a / b] on two Python ints. *)
Definition int_truediv (a b : Z) : result spec_float :=
  if b =? 0 then Raise ZeroDivisionError
  else
    let q := ratio a b in
    if is_infinite q then Raise OverflowError else Ok q.

(** ** Python values *)

Inductive value : Type :=
  | VNone
  | VBool (b : bool)
  | VInt (z : Z)
  | VFloat (f : spec_float)
  | VStr (s : string)
  | VList (l : list value)
  | VDict (d : list (string * value)).

Fixpoint lookup (k : string) (d : list (string * value)) : option value :=
  match d with
  | [] => None
  | (k', v) :: d' => if String.eqb k k' then Some v else lookup k d'
  end.

(** [obj.get(key, default)]: only a dict has the method. *)
Definition py_get (obj : value) (key : string) (default : value) : result value :=
  match obj with
  | VDict d =>
      match lookup key d with
      | Some v => Ok v
      | None => Ok default
      end
  | _ => Raise AttributeError
  end.

(** [obj[key]] with a string key. *)
Definition py_getitem (obj : value) (key : string) : result value :=
  match obj with
  | VDict d =>
      match lookup key d with
      | Some v => Ok v
      | None => Raise KeyError
      end
  | _ => Raise TypeError
  end.

Fixpoint chars (s : string) : list value :=
  match s with
  | EmptyString => []
  | String c s' => VStr (String c EmptyString) :: chars s'
  end.

(** The items a [for] loop visits. *)
Definition py_iter (obj : value) : result (list value) :=
  match obj with
  | VList l => Ok l
  | VStr s => Ok (chars s)
  | VDict d => Ok (map (fun kv => VStr (fst kv)) d)
  | _ => Raise TypeError
  end.

(** [len(obj)]. *)
Definition py_len (obj : value) : result Z :=
  match obj with
  | VList l => Ok (Z.of_nat (List.length l))
  | VStr s => Ok (Z.of_nat (String.length s))
  | VDict d => Ok (Z.of_nat (List.length d))
  | _ => Raise TypeError
  end.

(** *** Numbers *)

Inductive num : Type :=
  | NInt (z : Z)
  | NFloat (f : spec_float).

(** [bool] is a subclass of [int]. *)
Definition as_num (v : value) : option num :=
  match v with
  | VBool b => Some (NInt (if b then 1 else 0))
  | VInt z => Some (NInt z)
  | VFloat f => Some (NFloat f)
  | _ => None
  end.

(** Exact comparison of an int with a float, as Python does it. *)
Definition compare_int_float (z : Z) (f : spec_float) : option comparison :=
  match f with
  | S754_nan => None
  | S754_infinity s => Some (if s then Gt else Lt)
  | S754_zero _ => Some (z ?= 0)
  | S754_finite s m e =>
      let fm := if s then Zneg m else Zpos m in
      Some (if 0 <=? e then z ?= fm * 2 ^ e else z * 2 ^ (- e) ?= fm)
  end.

(** [b > a]. *)
Definition num_gt (b a : num) : bool :=
  match b, a with
  | NInt y, NInt x => x <? y
  | NFloat g, NFloat f => SFltb f g
  | NInt y, NFloat f =>
      match compare_int_float y f with
      | Some Gt => true
      | _ => false
      end
  | NFloat g, NInt x =>
      match compare_int_float x g with
      | Some Lt => true
      | _ => false
      end
  end.

(** [max(a, b)]: [a] unless [b > a]. *)
Definition num_max (a b : num) : num :=
  if num_gt b a then b else a.

(** [n / d] with an int numerator. *)
Definition truediv_int (n : Z) (d : num) : result spec_float :=
  match d with
  | NInt b => int_truediv n b
  | NFloat f =>
      fn <- float_of_int n ;;
      if is_zero f then Raise ZeroDivisionError else Ok (F64.div fn f)
  end.

(** [v * s] with a float [s]. *)
Definition mul_float (v : value) (s : spec_float) : result spec_float :=
  match as_num v with
  | Some (NInt z) => f <- float_of_int z ;; Ok (F64.mul f s)
  | Some (NFloat f) => Ok (F64.mul f s)
  | None => Raise TypeError
  end.

(** [f + n] with a float [f] and an int [n]. *)
Definition add_int (f : spec_float) (n : Z) : result spec_float :=
  fn <- float_of_int n ;; Ok (F64.add f fn).

(** ** Raster images *)

(** A grayscale image as NumPy shows it: rows of pixels. *)
Definition image : Type := list (list Z).

Definition point2 : Type := (spec_float * spec_float)%type.

Definition has_shape (h w : nat) (img : image) : Prop :=
  List.length img = h /\ Forall (fun row => List.length row = w) img.

Definition is_uint8 (img : image) : Prop :=
  Forall (Forall (fun p => 0 <= p <= 255)) img.

Definition filled (n : nat) (color : Z) : image :=
  repeat (repeat color n) n.

(** [Image.new('L', (size, size), color=color)]: Pillow refuses a negative
    side. *)
Definition Image_new (size color : Z) : result image :=
  if size <? 0 then Raise ValueError else Ok (filled (Z.to_nat size) color).

(** [seq[i]] with a non-negative index. *)
Definition py_index {A : Type} (l : list A) (i : nat) : result A :=
  match nth_error l i with
  | Some a => Ok a
  | None => Raise IndexError
  end.

Definition default_canvas : value :=
  VDict [("width", VInt 400); ("height", VInt 400)].

(** ** The rasterizer, [strokes_to_image] *)

Section Rasterizer.

(** [ImageDraw.Draw(img).line([a, b], fill=fill, width=width)]. *)
Variable draw_line : image -> point2 -> point2 -> Z -> Z -> image.

(** [scale = (size - 2 * padding) / max(canvas_width, canvas_height)].
    With an operand that is not a number either [max] or the division
    raises [TypeError]. *)
Definition compute_scale (size padding : Z) (canvas_width canvas_height : value)
  : result spec_float :=
  match as_num canvas_width, as_num canvas_height with
  | Some w, Some h => truediv_int (size - 2 * padding) (num_max w h)
  | _, _ => Raise TypeError
  end.

(** The loop over [points] that fills [coords]. *)
Fixpoint to_coords (scale : spec_float) (offset_x offset_y : Z)
    (points : list value) : result (list point2) :=
  match points with
  | [] => Ok []
  | pt :: rest =>
      vx <- py_getitem pt "x" ;;
      sx <- mul_float vx scale ;;
      x <- add_int sx offset_x ;;
      vy <- py_getitem pt "y" ;;
      sy <- mul_float vy scale ;;
      y <- add_int sy offset_y ;;
      coords <- to_coords scale offset_x offset_y rest ;;
      Ok ((x, y) :: coords)
  end.

(** [for i in range(len(coords) - 1): draw.line([coords[i], coords[i + 1]], fill=0, width=line_width)],
    the indices given as a list. *)
Fixpoint draw_segments (line_width : Z) (coords : list point2)
    (indices : list nat) (img : image) : result image :=
  match indices with
  | [] => Ok img
  | i :: rest =>
      a <- py_index coords i ;;
      b <- py_index coords (S i) ;;
      draw_segments line_width coords rest (draw_line img a b 0 line_width)
  end.

(** One iteration of [for stroke in strokes]. *)
Definition draw_stroke (scale : spec_float) (line_width padding : Z)
    (img : image) (stroke : value) : result image :=
  points <- py_get stroke "points" (VList []) ;;
  n <- py_len points ;;
  if n <? 2 then Ok img
  else
    pts <- py_iter points ;;
    coords <- to_coords scale padding padding pts ;;
    draw_segments line_width coords (seq 0 (List.length coords - 1)) img.

Fixpoint draw_strokes (scale : spec_float) (line_width padding : Z)
    (strokes : list value) (img : image) : result image :=
  match strokes with
  | [] => Ok img
  | stroke :: rest =>
      img' <- draw_stroke scale line_width padding img stroke ;;
      draw_strokes scale line_width padding rest img'
  end.

Definition strokes_to_image (stroke_data : value) (size line_width padding : Z)
  : result image :=
  img <- Image_new size 255 ;;
  strokes <- py_get stroke_data "strokes" (VList []) ;;
  canvas <- py_get stroke_data "canvas" default_canvas ;;
  canvas_width <- py_get canvas "width" (VInt 400) ;;
  canvas_height <- py_get canvas "height" (VInt 400) ;;
  scale <- compute_scale size padding canvas_width canvas_height ;;
  items <- py_iter strokes ;;
  draw_strokes scale line_width padding items img.

End Rasterizer.

(** ** Well-typed drawings

    The wire format of a drawing: strokes of points with numeric [x] and
    [y], optional further keys ([pressure], [timestamp], [color], [width])
    and an optional canvas. [encode_drawing] is the Python object
    [json.loads] hands to [strokes_to_image]. *)

Record Point : Type := {
  pt_x : num;
  pt_y : num;
  pt_extra : list (string * value)
}.

Record StrokeRecord : Type := {
  st_points : list Point;
  st_extra : list (string * value)
}.

Record Drawing : Type := {
  d_strokes : list StrokeRecord;
  d_canvas : option (num * num)
}.

Definition encode_num (n : num) : value :=
  match n with
  | NInt z => VInt z
  | NFloat f => VFloat f
  end.

Definition encode_point (p : Point) : value :=
  VDict (("x", encode_num (pt_x p)) :: ("y", encode_num (pt_y p)) :: pt_extra p).

Definition encode_stroke (s : StrokeRecord) : value :=
  VDict (("points", VList (map encode_point (st_points s))) :: st_extra s).

Definition encode_canvas (c : num * num) : value :=
  VDict [("width", encode_num (fst c)); ("height", encode_num (snd c))].

Definition encode_drawing (d : Drawing) : value :=
  VDict (("strokes", VList (map encode_stroke (d_strokes d))) ::
         match d_canvas d with
         | Some c => [("canvas", encode_canvas c)]
         | None => []
         end).

(** The canvas in force: 400 by 400 when the drawing names none. *)
Definition canvas_of (d : Drawing) : num * num :=
  match d_canvas d with
  | Some c => c
  | None => (NInt 400, NInt 400)
  end.

Definition num_positive (n : num) : Prop :=
  match n with
  | NInt z => 0 < z
  | NFloat f => SFltb F64.zero f = true
  end.

(** An int that [float()] accepts. *)
Definition int_in_range (z : Z) : Prop := Z.abs z < 2 ^ 1023.

Definition num_in_range (n : num) : Prop :=
  match n with
  | NInt z => int_in_range z
  | NFloat _ => True
  end.

Definition point_in_range (p : Point) : Prop :=
  num_in_range (pt_x p) /\ num_in_range (pt_y p).

Definition positive_canvas (d : Drawing) : Prop :=
  num_positive (fst (canvas_of d)) /\ num_positive (snd (canvas_of d)).

Definition valid_drawing (d : Drawing) : Prop :=
  positive_canvas d /\
  Forall (fun s => Forall point_in_range (st_points s)) (d_strokes d).

Definition num_is_zero (n : num) : bool :=
  match n with
  | NInt z => z =? 0
  | NFloat f => is_zero f
  end.

(** A point that cannot be read, with the exception reading it raises:
    no dict, or [x] or [y] missing or not a number. *)
Inductive bad_point : value -> exn -> Prop :=
  | point_not_dict (pt : value) :
      (forall d, pt <> VDict d) -> bad_point pt TypeError
  | point_missing_x (d : list (string * value)) :
      lookup "x" d = None -> bad_point (VDict d) KeyError
  | point_bad_x (d : list (string * value)) (v : value) :
      lookup "x" d = Some v -> as_num v = None -> bad_point (VDict d) TypeError
  | point_missing_y (d : list (string * value)) (v : value) (n : num) :
      lookup "x" d = Some v -> as_num v = Some n -> num_in_range n ->
      lookup "y" d = None -> bad_point (VDict d) KeyError
  | point_bad_y (d : list (string * value)) (v v' : value) (n : num) :
      lookup "x" d = Some v -> as_num v = Some n -> num_in_range n ->
      lookup "y" d = Some v' -> as_num v' = None -> bad_point (VDict d) TypeError.

(** The object of a drawing followed by further stroke objects, which need
    not be well-formed. *)
Definition with_strokes (d : Drawing) (raw : list value) : value :=
  VDict [("strokes", VList (map encode_stroke (d_strokes d) ++ raw)%list);
         ("canvas", encode_canvas (canvas_of d))].

(** A stroke object without [points] on a canvas of negative dimensions. *)
Definition malformed_stroke_data : value :=
  VDict [("strokes", VList [VDict []]);
         ("canvas", VDict [("width", VInt (-400)); ("height", VInt (-400))])].

(** Strokes that leave marks: those with at least two points. *)
Definition drawn_strokes (d : Drawing) : Drawing :=
  {| d_strokes := filter (fun s => 2 <=? Z.of_nat (List.length (st_points s))) (d_strokes d);
     d_canvas := d_canvas d |}.

(** ** The mapping the specification prescribes

    [scale = (size - 2*padding) / max(canvas.width, canvas.height)],
    [image_x = point.x * scale + padding], [image_y = point.y * scale + padding],
    and straight segments between consecutive mapped points. *)

Definition to_float (n : num) : spec_float :=
  match n with
  | NInt z => F64.of_Z z
  | NFloat f => f
  end.

Definition spec_scale (size padding : Z) (canvas : num * num) : spec_float :=
  match num_max (fst canvas) (snd canvas) with
  | NInt b => ratio (size - 2 * padding) b
  | NFloat f => F64.div (F64.of_Z (size - 2 * padding)) f
  end.

Definition spec_point (scale : spec_float) (padding : Z) (p : Point) : point2 :=
  (F64.add (F64.mul (to_float (pt_x p)) scale) (F64.of_Z padding),
   F64.add (F64.mul (to_float (pt_y p)) scale) (F64.of_Z padding)).

Fixpoint consecutive {A : Type} (l : list A) : list (A * A) :=
  match l with
  | a :: (b :: _) as rest => (a, b) :: consecutive rest
  | _ => []
  end.

Definition spec_segments (scale : spec_float) (padding : Z) (d : Drawing)
  : list (point2 * point2) :=
  flat_map (fun s => consecutive (map (spec_point scale padding) (st_points s)))
           (d_strokes (drawn_strokes d)).

Definition spec_render (draw_line : image -> point2 -> point2 -> Z -> Z -> image)
    (line_width : Z) (segments : list (point2 * point2)) (img : image) : image :=
  fold_left (fun im seg => draw_line im (fst seg) (snd seg) 0 line_width) segments img.

(** The drawing of the module's self-test: one closed stroke of nine
    points on a 400 by 400 canvas. *)
Definition sample_point (x y t : Z) : Point :=
  {| pt_x := NInt x; pt_y := NInt y;
     pt_extra := [("pressure", VFloat (ratio 1 2)); ("timestamp", VInt t)] |}.

Definition sample_stroke_data : Drawing :=
  {| d_strokes :=
       [{| st_points :=
             [sample_point 200 100 0; sample_point 280 150 1;
              sample_point 300 200 2; sample_point 280 280 3;
              sample_point 200 300 4; sample_point 120 280 5;
              sample_point 100 200 6; sample_point 120 150 7;
              sample_point 200 100 8];
           st_extra := [("color", VStr "#000000"); ("width", VInt 3)] |}];
     d_canvas := Some (NInt 400, NInt 400) |}.

(** A drawing surface for examples: a line inks the whole image. *)
Definition flood_line (img : image) (a b : point2) (fill width : Z) : image :=
  map (map (fun _ => fill)) img.

(** ** The tensor preparer, [image_to_tensor] *)

Definition tensor2 : Type := list (list spec_float).
Definition tensor3 : Type := list tensor2.
Definition tensor4 : Type := list tensor3.

(** [img.astype(np.float32)] *)
Definition astype_float32 (img : image) : tensor2 :=
  map (map F32.of_Z) img.

(** [arr / c] *)
Definition div_scalar (arr : tensor2) (c : spec_float) : tensor2 :=
  map (map (fun v => F32.div v c)) arr.

(** [c - arr] *)
Definition rsub_scalar (c : spec_float) (arr : tensor2) : tensor2 :=
  map (map (fun v => F32.sub c v)) arr.

(** [np.expand_dims(arr, axis=0)] *)
Definition expand_dims0 (arr : tensor2) : tensor3 := [arr].

Definition image_to_tensor (img : image) : tensor3 :=
  let img := div_scalar (astype_float32 img) F32.c255 in
  let img := rsub_scalar F32.one img in
  expand_dims0 img.

(** [value = 1.0 - (pixel / 255.0)], the normalisation of the specification. *)
Definition normalize_pixel (pixel : Z) : spec_float :=
  F32.sub F32.one (F32.div (F32.of_Z pixel) F32.c255).

Definition in_unit_interval (v : spec_float) : Prop :=
  SFleb F32.zero v = true /\ SFleb v F32.one = true.

Definition tensor_shape (c h w : nat) (t : tensor3) : Prop :=
  List.length t = c /\
  Forall (fun plane => List.length plane = h /\
                       Forall (fun row => List.length row = w) plane) t.

Definition tensor_in_unit (t : tensor3) : Prop :=
  Forall (Forall (Forall in_unit_interval)) t.

Definition pixels : list Z := map Z.of_nat (seq 0 256).

Definition sf_eqb (a b : spec_float) : bool :=
  match a, b with
  | S754_zero s, S754_zero s' => Bool.eqb s s'
  | S754_infinity s, S754_infinity s' => Bool.eqb s s'
  | S754_nan, S754_nan => true
  | S754_finite s m e, S754_finite s' m' e' =>
      Bool.eqb s s' && Pos.eqb m m' && Z.eqb e e'
  | _, _ => false
  end.

(** The pixel a normalised value comes from. *)
Definition pixel_of (v : spec_float) : Z :=
  match find (fun p => sf_eqb (normalize_pixel p) v) pixels with
  | Some p => p
  | None => 0
  end.

(** ** Augmentation, [augment_image] *)

(** The integer part of a finite float (towards zero). *)
Definition trunc (f : spec_float) : Z :=
  match f with
  | S754_finite s m e =>
      let a := if 0 <=? e then Zpos m * 2 ^ e else Zpos m / 2 ^ (- e) in
      if s then - a else a
  | _ => 0
  end.

(** [int(f)] *)
Definition py_int (f : spec_float) : result Z :=
  match f with
  | S754_nan => Raise ValueError
  | S754_infinity _ => Raise OverflowError
  | _ => Ok (trunc f)
  end.

Definition INT32_MIN : Z := - 2 ^ 31.

(** [arr.astype(np.int32)] on one float64: truncation; a value that does
    not fit is what the x86-64 conversion gives. *)
Definition astype_int32 (f : spec_float) : Z :=
  match f with
  | S754_nan | S754_infinity _ => INT32_MIN
  | _ => let t := trunc f in
         if (INT32_MIN <=? t) && (t <? 2 ^ 31) then t else INT32_MIN
  end.

(** int32 addition. *)
Definition add_int32 (a b : Z) : Z :=
  (a + b + 2 ^ 31) mod 2 ^ 32 - 2 ^ 31.

(** [np.clip(v, lo, hi)] *)
Definition clip (lo hi v : Z) : Z := Z.min (Z.max v lo) hi.

(** [arr.astype(np.uint8)] on one int32. *)
Definition astype_uint8 (v : Z) : Z := v mod 256.

Definition zip_with {A B C : Type} (f : A -> B -> C) (l1 : list A) (l2 : list B)
  : list C :=
  map (fun ab => f (fst ab) (snd ab)) (combine l1 l2).

(** [np.clip(result.astype(np.int32) + noise, 0, 255).astype(np.uint8)] *)
Definition add_noise (result : image) (noise : list (list Z)) : image :=
  zip_with (zip_with (fun p n => astype_uint8 (clip 0 255 (add_int32 p n))))
           result noise.

Definition image_height (img : image) : Z := Z.of_nat (List.length img).

Definition image_width (img : image) : Z :=
  match img with
  | [] => 0
  | row :: _ => Z.of_nat (List.length row)
  end.

Definition image_shape (img : image) : nat * nat :=
  (List.length img, match img with [] => O | row :: _ => List.length row end).

(** The state of NumPy's global generator and its draws:
    [np.random.seed], [np.random.uniform(low, high)] and
    [np.random.normal(loc, scale, shape)]. *)
Record Numpy : Type := {
  rng : Type;
  seeded : Z -> rng;
  np_random_uniform : spec_float -> spec_float -> rng -> spec_float * rng;
  np_random_normal : Z -> Z -> nat * nat -> rng -> tensor2 * rng
}.

(** Pillow: [rotate(angle, fillcolor=c)], [resize((w, h), BILINEAR)],
    [crop((left, upper, right, lower))], [base.paste(img, (x, y))]. *)
Record Pillow : Type := {
  pil_rotate : image -> spec_float -> Z -> image;
  pil_resize : image -> Z -> Z -> result image;
  pil_crop : image -> Z -> Z -> Z -> Z -> image;
  pil_paste : image -> image -> Z -> Z -> image
}.

Section Augmentation.

Variable np : Numpy.
Variable pil : Pillow.

(** [np.random.seed(seed)]: a seed is an int between 0 and 2**32 - 1. *)
Definition np_random_seed (seed : Z) : result (rng np) :=
  if (0 <=? seed) && (seed <? 2 ^ 32) then Ok (seeded np seed)
  else Raise ValueError.

Definition augment_image (img : image) (seed : option Z) (g : rng np)
  : result (image * rng np) :=
  g <- match seed with
       | Some s => np_random_seed s
       | None => Ok g
       end ;;
  let pil_img := img in
  let (angle, g) := np_random_uniform np (F64.of_Z (-15)) (F64.of_Z 15) g in
  let pil_img := pil_rotate pil pil_img angle 255 in
  let (scale, g) := np_random_uniform np (ratio 9 10) (ratio 11 10) g in
  width <- float_of_int (image_width pil_img) ;;
  new_size <- py_int (F64.mul width scale) ;;
  pil_img <- pil_resize pil pil_img new_size new_size ;;
  let orig_size := image_height img in
  let pil_img :=
    if orig_size <? new_size then
      let left := (new_size - orig_size) / 2 in
      pil_crop pil pil_img left left (left + orig_size) (left + orig_size)
    else if new_size <? orig_size then
      let new_img := filled (Z.to_nat orig_size) 255 in
      let offset := (orig_size - new_size) / 2 in
      pil_paste pil new_img pil_img offset offset
    else pil_img in
  let result := pil_img in
  let (noise, g) := np_random_normal np 0 2 (image_shape result) g in
  let noise := map (map astype_int32) noise in
  Ok (add_noise result noise, g).

(** ** Batches, [batch_preprocess] *)

Variable draw_line : image -> point2 -> point2 -> Z -> Z -> image.

Definition shape3 (t : tensor3) : nat * nat * nat :=
  (List.length t,
   List.length (hd [] t),
   List.length (hd [] (hd [] t))).

Definition same_shape (a b : tensor3) : bool :=
  let '(c1, h1, w1) := shape3 a in
  let '(c2, h2, w2) := shape3 b in
  Nat.eqb c1 c2 && Nat.eqb h1 h2 && Nat.eqb w1 w2.

(** [np.stack(arrays)]: at least one array, all of one shape. *)
Definition np_stack (arrays : list tensor3) : result tensor4 :=
  match arrays with
  | [] => Raise ValueError
  | a :: rest =>
      if forallb (same_shape a) rest then Ok arrays else Raise ValueError
  end.

(** The loop of [batch_preprocess]; [images] is returned in the order
    of the appends. *)
Fixpoint preprocess_each (stroke_data_list : list value) (size : Z)
    (augment : bool) (g : rng np) : result (list tensor3 * rng np) :=
  match stroke_data_list with
  | [] => Ok ([], g)
  | data :: rest =>
      img <- strokes_to_image draw_line data size 2 4 ;;
      ig <- (if augment then augment_image img None g else Ok (img, g)) ;;
      let tensor := image_to_tensor (fst ig) in
      tg <- preprocess_each rest size augment (snd ig) ;;
      Ok (tensor :: fst tg, snd tg)
  end.

Definition batch_preprocess (stroke_data_list : list value) (size : Z)
    (augment : bool) (g : rng np) : result (tensor4 * rng np) :=
  ig <- preprocess_each stroke_data_list size augment g ;;
  batch <- np_stack (fst ig) ;;
  Ok (batch, snd ig).

End Augmentation.

(** A generator and image operations for examples: the state is a counter
    that every draw returns and advances; the image operations leave the
    image as it is. *)
Definition counter_numpy : Numpy :=
  {| rng := Z;
     seeded := fun seed => seed;
     np_random_uniform := fun _ _ g => (F64.of_Z 1, g + 1);
     np_random_normal := fun _ _ shape g =>
       (repeat (repeat (F64.of_Z g) (snd shape)) (fst shape), g + 1) |}.

Definition still_pillow : Pillow :=
  {| pil_rotate := fun img _ _ => img;
     pil_resize := fun img _ _ => Ok img;
     pil_crop := fun img _ _ _ _ => img;
     pil_paste := fun base _ _ _ => base |}.

(** The tensors of a result, without the generator state. *)
Definition output {A S : Type} (r : result (A * S)) : result A :=
  match r with
  | Ok (a, _) => Ok a
  | Raise e => Raise e
  end.

(** ** The classifier, [model.py]

    A torch module is described by its constructor arguments; what it does
    to the shape of its input is [shape_of]. *)

Inductive layer : Type :=
  | Conv2d (in_channels out_channels kernel_size stride padding groups : nat)
  | BatchNorm2d (num_features : nat)
  | ReLU
  | AdaptiveAvgPool2d (output_size : nat)
  | Flatten
  | Dropout (p : spec_float)
  | Linear (in_features out_features : nat).

Definition shape : Type := list nat.

(** Output side of a convolution: [(n + 2*padding - kernel_size) // stride + 1]. *)
Definition conv_out (n kernel_size stride padding : nat) : nat :=
  ((n + 2 * padding - kernel_size) / stride + 1)%nat.

Definition shape_of (training : bool) (l : layer) (s : shape) : result shape :=
  match l, s with
  | Conv2d cin cout k st p _, [n; c; h; w] =>
      if (Nat.eqb c cin && Nat.leb k (h + 2 * p) && Nat.leb k (w + 2 * p))%bool
      then Ok [n; cout; conv_out h k st p; conv_out w k st p]
      else Raise RuntimeError
  | Conv2d _ _ _ _ _ _, _ => Raise RuntimeError
  | BatchNorm2d f, [n; c; h; w] =>
      if negb (Nat.eqb c f) then Raise RuntimeError
      else if (training && Nat.eqb (n * (h * w)) 1)%bool then Raise ValueError
      else Ok s
  | BatchNorm2d _, _ => Raise ValueError
  | ReLU, _ => Ok s
  | AdaptiveAvgPool2d o, [n; c; h; w] =>
      if (Nat.eqb h 0 || Nat.eqb w 0)%bool then Raise RuntimeError
      else Ok [n; c; o; o]
  | AdaptiveAvgPool2d _, _ => Raise RuntimeError
  | Flatten, n :: d :: rest => Ok [n; fold_left Nat.mul rest d]
  | Flatten, _ => Raise IndexError
  | Dropout _, _ => Ok s
  | Linear i o, [n; c] => if Nat.eqb c i then Ok [n; o] else Raise RuntimeError
  | Linear _ _, _ => Raise RuntimeError
  end.

(** [DepthwiseSeparableConv(in_channels, out_channels, stride)] *)
Record DepthwiseSeparableConv : Type := {
  depthwise : layer;
  pointwise : layer;
  bn1 : layer;
  bn2 : layer
}.

Definition DepthwiseSeparableConv_init (in_channels out_channels stride : nat)
  : DepthwiseSeparableConv :=
  {| depthwise := Conv2d in_channels in_channels 3 stride 1 in_channels;
     pointwise := Conv2d in_channels out_channels 1 1 0 1;
     bn1 := BatchNorm2d in_channels;
     bn2 := BatchNorm2d out_channels |}.

(** The modules [DepthwiseSeparableConv.forward] applies, in order. *)
Definition DepthwiseSeparableConv_forward (m : DepthwiseSeparableConv) : list layer :=
  [depthwise m; bn1 m; ReLU; pointwise m; bn2 m; ReLU].

(** [DoodleNet(num_classes)] *)
Record DoodleNet : Type := {
  conv1 : list layer;
  features : list DepthwiseSeparableConv;
  avgpool : layer;
  classifier : list layer;
  training : bool
}.

Definition DoodleNet_init (num_classes : nat) : DoodleNet :=
  {| conv1 := [Conv2d 1 32 3 2 1 1; BatchNorm2d 32; ReLU];
     features := [DepthwiseSeparableConv_init 32 64 1;
                  DepthwiseSeparableConv_init 64 128 2;
                  DepthwiseSeparableConv_init 128 128 1;
                  DepthwiseSeparableConv_init 128 256 2;
                  DepthwiseSeparableConv_init 256 256 1;
                  DepthwiseSeparableConv_init 256 512 2];
     avgpool := AdaptiveAvgPool2d 1;
     classifier := [Dropout (ratio 2 10); Linear 512 num_classes];
     training := true |}.

(** [model.eval()] *)
Definition eval_mode (m : DoodleNet) : DoodleNet :=
  {| conv1 := conv1 m; features := features m; avgpool := avgpool m;
     classifier := classifier m; training := false |}.

(** The modules [DoodleNet.forward] applies, in order. *)
Definition DoodleNet_forward_layers (m : DoodleNet) : list layer :=
  conv1 m ++ flat_map DepthwiseSeparableConv_forward (features m)
          ++ [avgpool m] ++ [Flatten] ++ classifier m.

Fixpoint shape_through (training : bool) (ls : list layer) (s : shape) : result shape :=
  match ls with
  | [] => Ok s
  | l :: rest => s' <- shape_of training l s ;; shape_through training rest s'
  end.

(** *** The maximum over the class dimension *)






(** torch: its tensors, with their shape and the float32 rows of a matrix;
    the state that a call of a module reads and updates (the generator
    that dropout draws from, the running statistics of batch
    normalisation); the value a module computes on a tensor, in training
    or evaluation mode, from a state; and the kernel of [F.softmax] on one
    row. *)
Record Torch : Type := {
  Tensor : Type;
  torch_state : Type;
  tensor_dims : Tensor -> shape;
  rows : Tensor -> list (list spec_float);
  apply_layer : bool -> layer -> Tensor -> torch_state -> result (Tensor * torch_state);
  F_softmax : list spec_float -> list spec_float
}.

(** What the modules promise: a module whose shape rule accepts the input
    returns, from any state, a tensor of the shape the rule gives, and a
    matrix has as many rows and columns as its shape says. *)
Definition torch_contract (T : Torch) : Prop :=
  (forall training l x st s,
      shape_of training l (tensor_dims T x) = Ok s ->
      exists y st', apply_layer T training l x st = Ok (y, st') /\ tensor_dims T y = s) /\
  (forall x n c,
      tensor_dims T x = [n; c] ->
      List.length (rows T x) = n /\
      Forall (fun row => List.length row = c) (rows T x)).

Section Classifier.

Variable T : Torch.

Fixpoint apply_layers (training : bool) (ls : list layer) (x : Tensor T)
    (st : torch_state T) : result (Tensor T * torch_state T) :=
  match ls with
  | [] => Ok (x, st)
  | l :: rest =>
      y <- apply_layer T training l x st ;;
      apply_layers training rest (fst y) (snd y)
  end.

(** [DepthwiseSeparableConv.forward] *)
Definition dsc_forward (training : bool) (m : DepthwiseSeparableConv) (x : Tensor T)
    (st : torch_state T) : result (Tensor T * torch_state T) :=
  x <- apply_layer T training (depthwise m) x st ;;
  x <- apply_layer T training (bn1 m) (fst x) (snd x) ;;
  x <- apply_layer T training ReLU (fst x) (snd x) ;;
  x <- apply_layer T training (pointwise m) (fst x) (snd x) ;;
  x <- apply_layer T training (bn2 m) (fst x) (snd x) ;;
  x <- apply_layer T training ReLU (fst x) (snd x) ;;
  Ok x.

(** [nn.Sequential] of the blocks. *)
Fixpoint features_forward (training : bool) (ms : list DepthwiseSeparableConv)
    (x : Tensor T) (st : torch_state T) : result (Tensor T * torch_state T) :=
  match ms with
  | [] => Ok (x, st)
  | m :: rest =>
      y <- dsc_forward training m x st ;;
      features_forward training rest (fst y) (snd y)
  end.

(** [DoodleNet.forward] *)
Definition forward (m : DoodleNet) (x : Tensor T) (st : torch_state T)
  : result (Tensor T * torch_state T) :=
  x <- apply_layers (training m) (conv1 m) x st ;;
  x <- features_forward (training m) (features m) (fst x) (snd x) ;;
  x <- apply_layer T (training m) (avgpool m) (fst x) (snd x) ;;
  x <- apply_layer T (training m) Flatten (fst x) (snd x) ;;
  x <- apply_layers (training m) (classifier m) (fst x) (snd x) ;;
  Ok x.


End Classifier.


(** The softmax of a row of equal logits: every exponential is
    [exp 0 = 1], their sum is the length of the row, and every probability
    is the float32 quotient of the two. *)
Definition softmax_equal_logits (row : list spec_float) : list spec_float :=
  map (fun _ => F32.div F32.one (F32.of_Z (Z.of_nat (List.length row)))) row.

(** Tensors for examples: a tensor is its shape, every logit is zero and
    the modules keep no state. *)
Definition shape_torch : Torch :=
  {| Tensor := shape;
     torch_state := unit;
     tensor_dims := fun s => s;
     rows := fun s =>
       match s with
       | [n; c] => repeat (repeat F32.zero c) n
       | _ => []
       end;
     apply_layer := fun training l x st => s <- shape_of training l x ;; Ok (s, st);
     F_softmax := softmax_equal_logits |}.

(** *** Construction, [create_model] *)

(** The parameters of a module and a state dict read from a file.
    [fresh_params] are the ones the constructor initialises; [torch_load]
    reads a file; [matches] is the test strict loading makes (same keys,
    same shapes); [copy_matching] copies the entries that fit into the
    parameters, which [load_state_dict] does before it reports. *)
Record Weights : Type := {
  Params : Type;
  StateDict : Type;
  fresh_params : nat -> Params;
  torch_load : string -> result StateDict;
  matches : Params -> StateDict -> bool;
  copy_matching : Params -> StateDict -> Params
}.

Record Model (W : Weights) : Type := {
  net : DoodleNet;
  params : Params W
}.

Arguments net {W} _.
Arguments params {W} _.

Section Loading.

Variable W : Weights.

(** [model.load_state_dict(state_dict)], strict: the model after the
    call and how the call ends. *)
Definition load_state_dict (model : Model W) (state_dict : StateDict W)
  : Model W * result unit :=
  ({| net := net model; params := copy_matching W (params model) state_dict |},
   if matches W (params model) state_dict then Ok tt else Raise RuntimeError).

(** A string is true when it is not empty. *)
Definition truthy (s : option string) : bool :=
  match s with
  | None => false
  | Some s => negb (String.eqb s "")
  end.

Definition create_model (num_classes : nat) (pretrained_path : option string)
  : result (Model W) :=
  let model := {| net := DoodleNet_init num_classes;
                  params := fresh_params W num_classes |} in
  if truthy pretrained_path then
    match pretrained_path with
    | Some path =>
        state_dict <- torch_load W path ;;
        let (model, outcome) := load_state_dict model state_dict in
        _ <- outcome ;;
        Ok model
    | None => Ok model
    end
  else Ok model.

End Loading.

(** Weights for examples: parameters and state dicts are lists of tensor
    shapes, one file holds the shapes of a two-class head, and a state dict
    matches when it lists the same shapes. *)
Definition list_weights : Weights :=
  {| Params := list (list nat);
     StateDict := list (list nat);
     fresh_params := fun num_classes => [[num_classes; 512%nat]; [num_classes]];
     torch_load := fun path =>
       if String.eqb path "two_classes.pt" then Ok [[2; 512]; [2]]%nat
       else Raise RuntimeError;
     matches := fun ps sd =>
       if list_eq_dec (list_eq_dec Nat.eq_dec) ps sd then true else false;
     copy_matching := fun ps sd =>
       map (fun ab => if list_eq_dec Nat.eq_dec (fst ab) (snd ab)
                      then snd ab else fst ab) (combine ps sd) |}.

(** ** What the rasterizer reads

    Two objects agree when they hold the same strokes, points, [x], [y]
    and canvas dimensions; any other key may differ. *)

Inductive point_agree : value -> value -> Prop :=
  | point_agree_dict (d d' : list (string * value)) :
      lookup "x" d = lookup "x" d' -> lookup "y" d = lookup "y" d' ->
      point_agree (VDict d) (VDict d').

Inductive stroke_agree : value -> value -> Prop :=
  | stroke_agree_no_points (s s' : list (string * value)) :
      lookup "points" s = None -> lookup "points" s' = None ->
      stroke_agree (VDict s) (VDict s')
  | stroke_agree_points (s s' : list (string * value)) (pts pts' : list value) :
      lookup "points" s = Some (VList pts) ->
      lookup "points" s' = Some (VList pts') ->
      Forall2 point_agree pts pts' ->
      stroke_agree (VDict s) (VDict s').

Definition canvas_agree (c c' : option value) : Prop :=
  match c, c' with
  | None, None => True
  | Some (VDict f), Some (VDict f') =>
      lookup "width" f = lookup "width" f' /\
      lookup "height" f = lookup "height" f'
  | _, _ => False
  end.

Inductive data_agree : value -> value -> Prop :=
  | data_agree_dict (f f' : list (string * value)) (ss ss' : list value) :
      lookup "strokes" f = Some (VList ss) ->
      lookup "strokes" f' = Some (VList ss') ->
      Forall2 stroke_agree ss ss' ->
      canvas_agree (lookup "canvas" f) (lookup "canvas" f') ->
      data_agree (VDict f) (VDict f').

(** A drawing without the optional keys of its points and strokes. *)
Definition plain_drawing (d : Drawing) : Drawing :=
  {| d_strokes :=
       map (fun s =>
              {| st_points := map (fun p => {| pt_x := pt_x p; pt_y := pt_y p;
                                               pt_extra := [] |}) (st_points s);
                 st_extra := [] |}) (d_strokes d);
     d_canvas := d_canvas d |}.

(** A value that is no dict. *)
Definition not_dict (v : value) : Prop := forall d, v <> VDict d.

(** A value a [for] loop cannot visit. *)
Definition not_iterable (v : value) : Prop :=
  match v with
  | VList _ | VStr _ | VDict _ => False
  | _ => True
  end.

(** A float that is a number and not infinite. *)
Definition float_finite (f : spec_float) : Prop :=
  match f with
  | S754_zero _ | S754_finite _ _ _ => True
  | _ => False
  end.

Definition num_finite (n : num) : Prop :=
  match n with
  | NInt z => int_in_range z
  | NFloat f => float_finite f
  end.

Definition point_finite (p : Point) : Prop :=
  num_finite (pt_x p) /\ num_finite (pt_y p).

(** ** Shapes of augmented images *)

(** A matrix of [h] rows of [w] entries. *)
Definition rect {A : Type} (h w : nat) (m : list (list A)) : Prop :=
  List.length m = h /\ Forall (fun row => List.length row = w) m.

(** What Pillow promises about sizes: [resize] returns the size asked for,
    [crop] the size of the box, and [paste] keeps the size of the image
    pasted into. *)
Definition pillow_contract (pil : Pillow) : Prop :=
  (forall img w h r,
      pil_resize pil img w h = Ok r -> has_shape (Z.to_nat h) (Z.to_nat w) r) /\
  (forall img left upper right lower,
      has_shape (Z.to_nat (lower - upper)) (Z.to_nat (right - left))
                (pil_crop pil img left upper right lower)) /\
  (forall base img x y h w,
      has_shape h w base -> has_shape h w (pil_paste pil base img x y)).

(** [np.random.normal(loc, scale, shape)] returns an array of that shape. *)
Definition numpy_contract (np : Numpy) : Prop :=
  forall loc scale shp g,
    rect (fst shp) (snd shp) (fst (np_random_normal np loc scale shp g)).

(** Image operations for examples that keep Pillow's promises about sizes:
    resizing and cropping return a blank image of the size asked for. *)
Definition blank_pillow : Pillow :=
  {| pil_rotate := fun img _ _ => img;
     pil_resize := fun _ w h =>
       if (w <=? 0) || (h <=? 0) then Raise ValueError
       else Ok (repeat (repeat 255 (Z.to_nat w)) (Z.to_nat h));
     pil_crop := fun _ left upper right lower =>
       repeat (repeat 255 (Z.to_nat (right - left))) (Z.to_nat (lower - upper));
     pil_paste := fun base _ _ _ => base |}.

(** A value held between 0 and 255. *)
Definition saturate (v : Z) : Z := Z.min 255 (Z.max 0 v).

(** ** Parameters of the classifier, [count_parameters] *)

(** The shapes of the tensors [module.parameters()] yields: a convolution
    without bias has its weight, a batch norm weight and bias (its running
    statistics are buffers), a linear layer weight and bias. *)
Definition layer_parameters (l : layer) : list shape :=
  match l with
  | Conv2d cin cout k _ _ g => [[cout; cin / g; k; k]%nat]
  | BatchNorm2d f => [[f]; [f]]
  | Linear i o => [[o; i]; [o]]
  | _ => []
  end.

(** [p.numel()] *)
Definition numel (s : shape) : Z :=
  fold_right (fun d acc => Z.of_nat d * acc) 1 s.

(** The modules a [DoodleNet] registers. *)
Definition DoodleNet_modules (m : DoodleNet) : list layer :=
  (conv1 m
   ++ flat_map (fun b => [depthwise b; pointwise b; bn1 b; bn2 b]) (features m)
   ++ [avgpool m] ++ classifier m)%list.

(** [count_parameters(model)]; every parameter of a model as constructed
    requires a gradient. *)
Definition count_parameters (m : DoodleNet) : Z :=
  fold_right Z.add 0 (map numel (flat_map layer_parameters (DoodleNet_modules m))).

(** A module whose shape rule refuses the input raises what the rule
    says, whatever the state. *)
Definition torch_error_contract (T : Torch) : Prop :=
  forall training l x st e,
    shape_of training l (tensor_dims T x) = Raise e ->
    apply_layer T training l x st = Raise e.




(** *** Strict loading, entry by entry *)













(** * Proofs *)

(** ** The error monad *)

Lemma bind_Ok {A B : Type} (m : result A) (k : A -> result B) (b : B) :
  bind m k = Ok b -> exists a, m = Ok a /\ k a = Ok b.
Proof.
  destruct m as [a|e]; simpl; intros H; [eauto | discriminate].
Qed.

Lemma raises_not_returns {A : Type} (m : result A) :
  raises m -> ~ returns m.
Proof.
  intros [e He] [a Ha]. congruence.
Qed.

(** ** Floats: when rounding cannot overflow *)

Lemma Zdigits2_log2 (m : Z) : 0 < m -> Zdigits2 m = Z.log2 m + 1.
Proof.
  destruct m as [|p|p]; try lia. intros _.
  replace (Z.log2 (Zpos p) + 1) with (Z.log2 (2 * Zpos p))
    by (rewrite Z.log2_double; lia).
  reflexivity.
Qed.

Lemma Zdigits2_nonneg (m : Z) : 0 <= Zdigits2 m.
Proof. destruct m; simpl; lia. Qed.

Lemma Zdigits2_mono (a b : Z) : 0 <= a <= b -> Zdigits2 a <= Zdigits2 b.
Proof.
  intros [Ha Hab].
  destruct (Z.eq_dec a 0) as [->|Hn]; [apply Zdigits2_nonneg|].
  rewrite !Zdigits2_log2 by lia.
  pose proof (Z.log2_le_mono a b Hab). lia.
Qed.

Lemma Zdigits2_succ (m : Z) : 0 <= m -> Zdigits2 (m + 1) <= Zdigits2 m + 1.
Proof.
  intros Hm.
  destruct (Z.eq_dec m 0) as [->|Hn]; [simpl; lia|].
  rewrite !Zdigits2_log2 by lia.
  assert (Z.log2 (m + 1) <= Z.log2 (2 * m)) by (apply Z.log2_le_mono; lia).
  rewrite Z.log2_double in H by lia. lia.
Qed.

Lemma Zdigits2_shiftr (m n : Z) :
  0 <= m -> 0 <= n -> Zdigits2 (Z.shiftr m n) <= Z.max 0 (Zdigits2 m - n).
Proof.
  intros Hm Hn.
  destruct (Z.eq_dec (Z.shiftr m n) 0) as [->|Hq]; [simpl; lia|].
  assert (0 <= Z.shiftr m n) by (apply Z.shiftr_nonneg; lia).
  assert (0 < m).
  { destruct (Z.eq_dec m 0) as [->|]; [rewrite Z.shiftr_0_l in Hq|]; lia. }
  assert (n <= Z.log2 m).
  { destruct (Z_lt_le_dec (Z.log2 m) n) as [Hlt|]; [|assumption].
    rewrite (Z.shiftr_eq_0 m n) in Hq by lia. lia. }
  rewrite !Zdigits2_log2 by lia.
  rewrite Z.log2_shiftr by lia. lia.
Qed.

Lemma Zdigits2_shiftl (m n : Z) :
  0 < m -> 0 <= n -> Zdigits2 (Z.shiftl m n) = Zdigits2 m + n.
Proof.
  intros Hm Hn.
  assert (0 < Z.shiftl m n).
  { rewrite Z.shiftl_mul_pow2 by lia. apply Z.mul_pos_pos; [lia|].
    apply Z.pow_pos_nonneg; lia. }
  rewrite !Zdigits2_log2 by lia.
  rewrite Z.log2_shiftl by lia. lia.
Qed.

Lemma iter_pos_comm {A : Type} (f : A -> A) (p : positive) (x : A) :
  SpecFloat.iter_pos f p (f x) = f (SpecFloat.iter_pos f p x).
Proof.
  revert x. induction p as [p IH|p IH|]; intros x; simpl.
  - now rewrite !IH.
  - now rewrite !IH.
  - reflexivity.
Qed.

Lemma iter_pos_succ {A : Type} (f : A -> A) (p : positive) (x : A) :
  SpecFloat.iter_pos f (Pos.succ p) x = f (SpecFloat.iter_pos f p x).
Proof.
  revert x. induction p as [p IH|p IH|]; intros x; simpl.
  - rewrite !IH, !iter_pos_comm. reflexivity.
  - rewrite !iter_pos_comm. reflexivity.
  - reflexivity.
Qed.

Lemma shr_1_m (mrs : shr_record) :
  0 <= shr_m mrs -> shr_m (shr_1 mrs) = Z.shiftr (shr_m mrs) 1.
Proof.
  destruct mrs as [m r s]; simpl. intros Hm.
  destruct m as [|[p|p|]|p]; try lia; reflexivity.
Qed.

Lemma iter_shr_1_m (p : positive) (mrs : shr_record) :
  0 <= shr_m mrs ->
  shr_m (SpecFloat.iter_pos shr_1 p mrs) = Z.shiftr (shr_m mrs) (Zpos p).
Proof.
  intros Hm. induction p as [|p IH] using Pos.peano_ind.
  - simpl SpecFloat.iter_pos. now apply shr_1_m.
  - rewrite iter_pos_succ, shr_1_m, IH.
    + rewrite Z.shiftr_shiftr by lia. f_equal. lia.
    + rewrite IH. apply Z.shiftr_nonneg. lia.
Qed.

Section Bounds.

Variables prec emax : Z.
Hypothesis Hprec : 0 < prec.
Hypothesis Hemax : 3 <= 2 * emax.
Hypothesis Hpe : prec <= emax.

Lemma shr_fexp_spec (m e : Z) (l : location) :
  0 <= m ->
  exists mrs n,
    shr_fexp prec emax m e l = (mrs, e + n) /\ 0 <= n /\
    n = Z.max 0 (fexp prec emax (Zdigits2 m + e) - e) /\
    shr_m mrs = Z.shiftr m n.
Proof.
  intros Hm. unfold shr_fexp, shr.
  assert (Hrec : shr_m (shr_record_of_loc m l) = m)
    by (destruct l as [|[]]; reflexivity).
  destruct (fexp prec emax (Zdigits2 m + e) - e) as [|p|p] eqn:E.
  - exists (shr_record_of_loc m l), 0. rewrite Z.add_0_r, Hrec. simpl. repeat split; lia.
  - exists (SpecFloat.iter_pos shr_1 p (shr_record_of_loc m l)), (Zpos p).
    rewrite iter_shr_1_m, Hrec by (rewrite Hrec; lia). repeat split; lia.
  - exists (shr_record_of_loc m l), 0. rewrite Z.add_0_r, Hrec. simpl. repeat split; lia.
Qed.

Lemma round_nearest_even_bounds (m : Z) (l : location) :
  0 <= m -> m <= round_nearest_even m l <= m + 1.
Proof.
  intros Hm. destruct l as [|[]]; simpl; try lia.
  destruct (Z.even m); lia.
Qed.

Lemma binary_round_aux_finite (s : bool) (m e : Z) (l : location) :
  0 <= m -> e <= emax - prec -> Zdigits2 m + e < emax ->
  is_infinite (binary_round_aux prec emax s m e l) = false.
Proof.
  intros Hm He Hd. unfold binary_round_aux.
  destruct (shr_fexp_spec m e l Hm) as (mrs1 & n1 & -> & Hn1 & En1 & Hm1).
  pose proof (round_nearest_even_bounds (shr_m mrs1) (loc_of_shr_record mrs1)) as Hr.
  assert (H1 : 0 <= shr_m mrs1) by (rewrite Hm1; apply Z.shiftr_nonneg; lia).
  specialize (Hr H1).
  set (m2 := round_nearest_even (shr_m mrs1) (loc_of_shr_record mrs1)) in *.
  destruct (shr_fexp_spec m2 (e + n1) loc_Exact ltac:(lia)) as (mrs2 & n2 & -> & Hn2 & En2 & Hm2).
  destruct (shr_m mrs2) as [|q|q]; try reflexivity.
  assert (Hle : e + n1 + n2 <= emax - prec).
  { assert (Zdigits2 m2 <= Z.max 0 (Zdigits2 m - n1) + 1).
    { etransitivity; [apply (Zdigits2_mono m2 (shr_m mrs1 + 1)); lia|].
      etransitivity; [apply Zdigits2_succ; lia|].
      rewrite Hm1. pose proof (Zdigits2_shiftr m n1 Hm Hn1). lia. }
    unfold fexp, emin in *. lia. }
  apply Z.leb_le in Hle. now rewrite Hle.
Qed.

Lemma digits2_pos_iter_xO (p d : positive) :
  Zpos (digits2_pos (Pos.iter xO p d)) = Zpos (digits2_pos p) + Zpos d.
Proof.
  induction d as [|d IH] using Pos.peano_ind.
  - simpl. lia.
  - rewrite Pos.iter_succ. simpl digits2_pos. lia.
Qed.

Lemma binary_normalize_finite (z : Z) :
  Z.abs z < 2 ^ (emax - 1) ->
  is_infinite (binary_normalize prec emax z 0 false) = false.
Proof.
  intros Hz.
  assert (Hdig : forall p, Zpos p < 2 ^ (emax - 1) -> Zpos (digits2_pos p) < emax).
  { intros p Hp. change (Zpos (digits2_pos p)) with (Zdigits2 (Zpos p)).
    rewrite Zdigits2_log2 by lia.
    assert (Z.log2 (Zpos p) < emax - 1) by (apply Z.log2_lt_pow2; lia). lia. }
  assert (Hround : forall s p, Zpos p < 2 ^ (emax - 1) ->
             is_infinite (binary_round prec emax s p 0) = false).
  { intros s p Hp. specialize (Hdig p Hp). unfold binary_round, shl_align.
    destruct (fexp prec emax (Zpos (digits2_pos p) + 0) - 0) as [|d|d] eqn:E;
      apply binary_round_aux_finite; try lia.
    - simpl Zdigits2. lia.
    - simpl Zdigits2. lia.
    - simpl Zdigits2. rewrite digits2_pos_iter_xO. lia. }
  destruct z as [|p|p]; simpl; [reflexivity| |]; apply Hround; lia.
Qed.

Lemma SFdiv_ints_finite (sa sb : bool) (a b : positive) :
  Zpos a < 2 ^ (emax - 1) ->
  is_infinite (SFdiv prec emax (S754_finite sa a 0) (S754_finite sb b 0)) = false.
Proof.
  intros Ha.
  assert (Hda : Zdigits2 (Zpos a) < emax).
  { rewrite Zdigits2_log2 by lia.
    assert (Z.log2 (Zpos a) < emax - 1) by (apply Z.log2_lt_pow2; lia). lia. }
  unfold SFdiv, SFdiv_core_binary.
  set (e' := Z.min _ _).
  assert (He' : e' <= 0) by (unfold e'; lia).
  set (m' := match 0 - 0 - e' with Zpos _ => _ | Z0 => _ | Zneg _ => _ end).
  assert (Hm' : 0 < m' /\ Zdigits2 m' = Zdigits2 (Zpos a) - e').
  { unfold m'. destruct (0 - 0 - e') as [|s|s] eqn:E; try lia.
    rewrite Zdigits2_shiftl by lia. split; [|lia].
    rewrite Z.shiftl_mul_pow2 by lia. apply Z.mul_pos_pos; [lia|].
    apply Z.pow_pos_nonneg; lia. }
  destruct Hm' as [Hm' Hdm].
  pose proof (Z_div_mod m' (Zpos b) ltac:(lia)) as Hdiv.
  destruct (Z.div_eucl m' (Zpos b)) as [q r].
  destruct Hdiv as [Hq Hr].
  assert (0 <= q <= m') by nia.
  apply binary_round_aux_finite; try lia.
  pose proof (Zdigits2_mono q m' ltac:(lia)). lia.
Qed.

End Bounds.

Lemma float_of_int_in_range (z : Z) :
  int_in_range z -> float_of_int z = Ok (F64.of_Z z).
Proof.
  intros Hz. unfold float_of_int, F64.of_Z.
  rewrite binary_normalize_finite; [reflexivity| | | |]; try (unfold F64.prec, F64.emax; lia).
  exact Hz.
Qed.

Lemma ratio_finite (a b : Z) :
  b <> 0 -> int_in_range a -> is_infinite (ratio a b) = false.
Proof.
  intros Hb Ha. unfold ratio, F64.div.
  destruct a as [|a|a]; destruct b as [|b|b]; try congruence; try reflexivity;
    simpl exact_operand;
    apply SFdiv_ints_finite; unfold F64.prec, F64.emax; try lia; exact Ha.
Qed.

Lemma int_truediv_in_range (a b : Z) :
  b <> 0 -> int_in_range a -> int_truediv a b = Ok (ratio a b).
Proof.
  intros Hb Ha. unfold int_truediv.
  destruct (Z.eqb_spec b 0) as [|_]; [contradiction|].
  now rewrite ratio_finite.
Qed.

(** ** Numbers of a well-typed drawing *)

Lemma as_num_encode (n : num) : as_num (encode_num n) = Some n.
Proof. destruct n; reflexivity. Qed.

Lemma num_max_cases (a b : num) : num_max a b = a \/ num_max a b = b.
Proof. unfold num_max. destruct (num_gt b a); auto. Qed.

Lemma num_max_positive (a b : num) :
  num_positive a -> num_positive b -> num_positive (num_max a b).
Proof.
  intros Ha Hb. destruct (num_max_cases a b) as [-> | ->]; assumption.
Qed.

Lemma truediv_int_positive (n : Z) (d : num) :
  int_in_range n -> num_positive d ->
  truediv_int n d =
    Ok match d with
       | NInt b => ratio n b
       | NFloat f => F64.div (F64.of_Z n) f
       end.
Proof.
  intros Hn Hd. destruct d as [b|f]; simpl in *.
  - apply int_truediv_in_range; [lia | assumption].
  - rewrite float_of_int_in_range by assumption. simpl.
    destruct f; try discriminate; reflexivity.
Qed.

Lemma mul_float_encode (n : num) (scale : spec_float) :
  num_in_range n ->
  mul_float (encode_num n) scale = Ok (F64.mul (to_float n) scale).
Proof.
  intros Hn. unfold mul_float. rewrite as_num_encode.
  destruct n as [z|f]; simpl in *; [|reflexivity].
  now rewrite float_of_int_in_range.
Qed.

Lemma add_int_in_range (f : spec_float) (n : Z) :
  int_in_range n -> add_int f n = Ok (F64.add f (F64.of_Z n)).
Proof.
  intros Hn. unfold add_int. now rewrite float_of_int_in_range.
Qed.

(** ** The loops of the rasterizer *)

Lemma consecutive_short {A : Type} (l : list A) :
  (List.length l < 2)%nat -> consecutive l = [].
Proof.
  destruct l as [|a [|b l]]; simpl; intros H; try reflexivity. lia.
Qed.

Lemma to_coords_encode (scale : spec_float) (padding : Z) (pts : list Point) :
  int_in_range padding -> Forall point_in_range pts ->
  to_coords scale padding padding (map encode_point pts) =
    Ok (map (spec_point scale padding) pts).
Proof.
  intros Hp Hpts. induction Hpts as [|p pts [Hx Hy] _ IH]; [reflexivity|].
  cbn [map to_coords]. unfold encode_point at 1 2. cbn [py_getitem lookup].
  cbn [String.eqb Ascii.eqb Bool.eqb andb bind].
  rewrite (mul_float_encode _ _ Hx). cbn [bind].
  rewrite (add_int_in_range _ _ Hp). cbn [bind].
  rewrite (mul_float_encode _ _ Hy). cbn [bind].
  rewrite (add_int_in_range _ _ Hp). cbn [bind].
  rewrite IH. reflexivity.
Qed.

Section RasterizerProofs.

Variable draw_line : image -> point2 -> point2 -> Z -> Z -> image.

Lemma draw_segments_consecutive (line_width : Z) (pre coords : list point2)
    (img : image) :
  draw_segments draw_line line_width (pre ++ coords)%list
      (seq (List.length pre) (List.length coords - 1)) img =
    Ok (spec_render draw_line line_width (consecutive coords) img).
Proof.
  revert pre img. induction coords as [|a coords IH]; intros pre img.
  - reflexivity.
  - destruct coords as [|b coords]; [reflexivity|].
    replace (List.length (a :: b :: coords) - 1)%nat
      with (S (List.length (b :: coords) - 1)) by (simpl; lia).
    cbn [seq draw_segments consecutive].
    unfold py_index.
    rewrite !nth_error_app2 by lia. rewrite Nat.sub_diag.
    replace (S (List.length pre) - List.length pre)%nat with 1%nat by lia.
    cbn [nth_error bind].
    specialize (IH (pre ++ [a])%list (draw_line img a b 0 line_width)).
    rewrite <- app_assoc, length_app in IH. cbn [List.length app] in IH.
    rewrite Nat.add_1_r in IH. exact IH.
Qed.

Lemma draw_stroke_short (scale : spec_float) (line_width padding : Z)
    (img : image) (s : StrokeRecord) :
  (List.length (st_points s) < 2)%nat ->
  draw_stroke draw_line scale line_width padding img (encode_stroke s) = Ok img.
Proof.
  intros Hlen. unfold draw_stroke, encode_stroke.
  cbn [py_get lookup String.eqb Ascii.eqb Bool.eqb andb bind py_len].
  rewrite length_map.
  destruct (Z.ltb_spec (Z.of_nat (List.length (st_points s))) 2); [reflexivity | lia].
Qed.

Lemma draw_stroke_long (scale : spec_float) (line_width padding : Z)
    (img : image) (s : StrokeRecord) :
  (2 <= List.length (st_points s))%nat ->
  draw_stroke draw_line scale line_width padding img (encode_stroke s) =
    (coords <- to_coords scale padding padding (map encode_point (st_points s)) ;;
     Ok (spec_render draw_line line_width (consecutive coords) img)).
Proof.
  intros Hlen. unfold draw_stroke, encode_stroke.
  cbn [py_get lookup String.eqb Ascii.eqb Bool.eqb andb bind py_len py_iter].
  rewrite length_map.
  destruct (Z.ltb_spec (Z.of_nat (List.length (st_points s))) 2); [lia|].
  destruct (to_coords _ _ _ _) as [coords|e]; [|reflexivity].
  cbn [bind]. apply (draw_segments_consecutive line_width [] coords img).
Qed.

(** Strokes with fewer than two points never reach the drawing surface. *)
Lemma draw_strokes_drawn (scale : spec_float) (line_width padding : Z)
    (strokes : list StrokeRecord) (img : image) :
  draw_strokes draw_line scale line_width padding (map encode_stroke strokes) img =
  draw_strokes draw_line scale line_width padding
    (map encode_stroke
       (filter (fun s => 2 <=? Z.of_nat (List.length (st_points s))) strokes)) img.
Proof.
  revert img. induction strokes as [|s strokes IH]; intros img; [reflexivity|].
  cbn [map filter draw_strokes].
  destruct (Z.leb_spec 2 (Z.of_nat (List.length (st_points s)))) as [Hl|Hs].
  - cbn [map draw_strokes].
    destruct (draw_stroke _ _ _ _ _ _) as [img'|e]; [|reflexivity].
    cbn [bind]. apply IH.
  - rewrite draw_stroke_short by lia. cbn [bind]. apply IH.
Qed.

Lemma draw_strokes_valid (scale : spec_float) (line_width padding : Z)
    (strokes : list StrokeRecord) (img : image) :
  int_in_range padding ->
  Forall (fun s => Forall point_in_range (st_points s)) strokes ->
  draw_strokes draw_line scale line_width padding (map encode_stroke strokes) img =
    Ok (spec_render draw_line line_width
          (flat_map (fun s => consecutive (map (spec_point scale padding) (st_points s)))
             (filter (fun s => 2 <=? Z.of_nat (List.length (st_points s))) strokes))
          img).
Proof.
  intros Hp Hall. revert img.
  induction Hall as [|s strokes Hs _ IH]; intros img; [reflexivity|].
  cbn [map filter draw_strokes].
  destruct (Z.leb_spec 2 (Z.of_nat (List.length (st_points s)))) as [Hl|Hsh].
  - rewrite draw_stroke_long by lia.
    rewrite to_coords_encode by assumption. cbn [bind flat_map].
    rewrite IH. unfold spec_render. now rewrite fold_left_app.
  - rewrite draw_stroke_short by lia. cbn [bind]. apply IH.
Qed.

Lemma compute_scale_valid (size padding : Z) (c : num * num) :
  int_in_range (size - 2 * padding) ->
  num_positive (fst c) -> num_positive (snd c) ->
  compute_scale size padding (encode_num (fst c)) (encode_num (snd c)) =
    Ok (spec_scale size padding c).
Proof.
  intros Hn Hw Hh. unfold compute_scale, spec_scale.
  rewrite !as_num_encode.
  apply truediv_int_positive; [assumption | now apply num_max_positive].
Qed.

(** What [strokes_to_image] does with the object of a well-typed
    drawing, canvas read and scale computed. *)
Lemma strokes_to_image_encode (d : Drawing) (size line_width padding : Z) :
  strokes_to_image draw_line (encode_drawing d) size line_width padding =
    (img <- Image_new size 255 ;;
     scale <- compute_scale size padding (encode_num (fst (canvas_of d)))
                                         (encode_num (snd (canvas_of d))) ;;
     draw_strokes draw_line scale line_width padding
                  (map encode_stroke (d_strokes d)) img).
Proof.
  unfold strokes_to_image, encode_drawing, canvas_of.
  destruct (Image_new size 255) as [img|e]; [|reflexivity].
  destruct (d_canvas d) as [[w h]|]; reflexivity.
Qed.

End RasterizerProofs.

(** ** Shapes and pixel ranges *)

Lemma filled_shape (n : nat) (color : Z) : has_shape n n (filled n color).
Proof.
  unfold has_shape, filled. split; [apply repeat_length|].
  apply Forall_forall. intros row Hrow.
  apply repeat_spec in Hrow. subst row. apply repeat_length.
Qed.

Lemma filled_uint8 (n : nat) (color : Z) :
  0 <= color <= 255 -> is_uint8 (filled n color).
Proof.
  intros Hc. unfold is_uint8, filled.
  apply Forall_forall. intros row Hrow. apply repeat_spec in Hrow. subst row.
  apply Forall_forall. intros p Hp. apply repeat_spec in Hp. now subst p.
Qed.

Lemma flood_line_shape (img : image) (a b : point2) (fill width : Z) (h w : nat) :
  has_shape h w img -> has_shape h w (flood_line img a b fill width).
Proof.
  unfold has_shape, flood_line. intros [Hh Hw]. split; [now rewrite length_map|].
  apply Forall_map. eapply Forall_impl; [|exact Hw].
  intros row Hrow. simpl. now rewrite length_map.
Qed.

Lemma flood_line_uint8 (img : image) (a b : point2) (width : Z) :
  is_uint8 img -> is_uint8 (flood_line img a b 0 width).
Proof.
  unfold is_uint8, flood_line. intros _.
  apply Forall_map, Forall_forall. intros row _.
  apply Forall_map, Forall_forall. intros p _. lia.
Qed.

Section RenderInvariant.

Variable draw_line : image -> point2 -> point2 -> Z -> Z -> image.

Hypothesis draw_line_shape :
  forall img a b fill width h w,
    has_shape h w img -> has_shape h w (draw_line img a b fill width).

Hypothesis draw_line_uint8 :
  forall img a b width,
    is_uint8 img -> is_uint8 (draw_line img a b 0 width).

Lemma spec_render_invariant (line_width : Z) (segs : list (point2 * point2))
    (img : image) (h w : nat) :
  has_shape h w img -> is_uint8 img ->
  has_shape h w (spec_render draw_line line_width segs img) /\
  is_uint8 (spec_render draw_line line_width segs img).
Proof.
  revert img. unfold spec_render.
  induction segs as [|seg segs IH]; intros img Hs Hp; [now split|].
  cbn [fold_left]. apply IH; [now apply draw_line_shape | now apply draw_line_uint8].
Qed.

End RenderInvariant.

(** ** Normalisation, pixel by pixel *)

Lemma pixel_in_pixels (p : Z) : 0 <= p <= 255 -> In p pixels.
Proof.
  intros Hp. unfold pixels. apply in_map_iff. exists (Z.to_nat p).
  split; [lia|]. apply in_seq. lia.
Qed.

Lemma normalize_pixel_unit (p : Z) :
  0 <= p <= 255 -> in_unit_interval (normalize_pixel p).
Proof.
  intros Hp.
  assert (Hall : forallb (fun q => SFleb F32.zero (normalize_pixel q)
                                   && SFleb (normalize_pixel q) F32.one) pixels = true)
    by (vm_compute; reflexivity).
  rewrite forallb_forall in Hall.
  specialize (Hall p (pixel_in_pixels p Hp)).
  apply andb_true_iff in Hall. exact Hall.
Qed.

Lemma pixel_of_normalize (p : Z) :
  0 <= p <= 255 -> pixel_of (normalize_pixel p) = p.
Proof.
  intros Hp.
  assert (Hall : forallb (fun q => pixel_of (normalize_pixel q) =? q) pixels = true)
    by (vm_compute; reflexivity).
  rewrite forallb_forall in Hall.
  specialize (Hall p (pixel_in_pixels p Hp)). now apply Z.eqb_eq.
Qed.

Lemma normalize_pixel_inj (p q : Z) :
  0 <= p <= 255 -> 0 <= q <= 255 ->
  normalize_pixel p = normalize_pixel q -> p = q.
Proof.
  intros Hp Hq E.
  rewrite <- (pixel_of_normalize p Hp), <- (pixel_of_normalize q Hq). now rewrite E.
Qed.

Lemma image_to_tensor_pointwise (img : image) :
  image_to_tensor img = [map (map normalize_pixel) img].
Proof.
  unfold image_to_tensor, expand_dims0, rsub_scalar, div_scalar, astype_float32.
  rewrite !map_map. f_equal. apply map_ext. intros row.
  rewrite !map_map. reflexivity.
Qed.

Lemma image_to_tensor_shape (img : image) (h w : nat) :
  has_shape h w img -> tensor_shape 1 h w (image_to_tensor img).
Proof.
  intros [Hh Hw]. rewrite image_to_tensor_pointwise.
  split; [reflexivity|]. constructor; [|constructor].
  split; [now rewrite length_map|].
  apply Forall_map. eapply Forall_impl; [|exact Hw].
  intros row Hrow. simpl. now rewrite length_map.
Qed.

Lemma image_to_tensor_unit (img : image) :
  is_uint8 img -> tensor_in_unit (image_to_tensor img).
Proof.
  intros Hp. rewrite image_to_tensor_pointwise.
  constructor; [|constructor].
  apply Forall_map. eapply Forall_impl; [|exact Hp].
  intros row Hrow. simpl. apply Forall_map. eapply Forall_impl; [|exact Hrow].
  intros p. apply normalize_pixel_unit.
Qed.

Lemma map_normalize_inj (r1 r2 : list Z) :
  Forall (fun p => 0 <= p <= 255) r1 -> Forall (fun p => 0 <= p <= 255) r2 ->
  map normalize_pixel r1 = map normalize_pixel r2 -> r1 = r2.
Proof.
  intros H1. revert r2. induction H1 as [|p r1 Hp _ IH]; intros r2 H2 E.
  - destruct r2; [reflexivity | discriminate].
  - destruct H2 as [|q r2 Hq H2]; [discriminate|].
    cbn [map] in E. injection E as Epq Er.
    f_equal; [now apply normalize_pixel_inj | now apply IH].
Qed.

Lemma image_to_tensor_inj (a b : image) :
  is_uint8 a -> is_uint8 b -> image_to_tensor a = image_to_tensor b -> a = b.
Proof.
  rewrite !image_to_tensor_pointwise. intros Ha. revert b.
  induction Ha as [|r1 a Hr1 _ IH]; intros b Hb E; injection E as E.
  - destruct b; [reflexivity | discriminate].
  - destruct Hb as [|r2 b Hr2 Hb]; [discriminate|].
    cbn [map] in E. injection E as Er Et.
    f_equal; [now apply map_normalize_inj|].
    apply IH; [assumption | now rewrite Et].
Qed.

(** ** The rasterizer on well-typed drawings *)

Lemma sample_stroke_data_valid : valid_drawing sample_stroke_data.
Proof.
  split; [split; reflexivity|].
  repeat (constructor; try (split; vm_compute; reflexivity)).
Qed.

Section RasterizerClaims.

Variable draw_line : image -> point2 -> point2 -> Z -> Z -> image.

Lemma strokes_to_image_valid (d : Drawing) (size line_width padding : Z) :
  0 <= size -> valid_drawing d ->
  int_in_range padding -> int_in_range (size - 2 * padding) ->
  strokes_to_image draw_line (encode_drawing d) size line_width padding =
    Ok (spec_render draw_line line_width
          (spec_segments (spec_scale size padding (canvas_of d)) padding d)
          (filled (Z.to_nat size) 255)).
Proof.
  intros Hsize [[Hw Hh] Hpts] Hpad Hnum.
  rewrite strokes_to_image_encode. unfold Image_new.
  destruct (Z.ltb_spec size 0); [lia|]. cbn [bind].
  rewrite compute_scale_valid by assumption. cbn [bind].
  now rewrite draw_strokes_valid.
Qed.

End RasterizerClaims.

(** C2. For a drawing with positive canvas dimensions, [strokes_to_image]
    draws exactly the segments between consecutive points mapped by
    [image_x = x * scale + padding], [image_y = y * scale + padding] with the
    one [scale = (size - 2*padding) / max(width, height)] on both axes; the
    mapped coordinates reach the drawing surface as computed, unclamped. *)
Theorem strokes_to_image_uniform_scale
    (draw_line : image -> point2 -> point2 -> Z -> Z -> image)
    (d : Drawing) (size line_width padding : Z) :
  0 <= size -> valid_drawing d ->
  int_in_range padding -> int_in_range (size - 2 * padding) ->
  strokes_to_image draw_line (encode_drawing d) size line_width padding =
    Ok (spec_render draw_line line_width
          (spec_segments (spec_scale size padding (canvas_of d)) padding d)
          (filled (Z.to_nat size) 255)).
Proof.
  apply strokes_to_image_valid.
Qed.

Lemma strokes_to_image_uniform_scale_witness :
  strokes_to_image flood_line (encode_drawing sample_stroke_data) 64 2 4 =
    Ok (spec_render flood_line 2
          (spec_segments (spec_scale 64 4 (canvas_of sample_stroke_data)) 4
             sample_stroke_data)
          (filled (Z.to_nat 64) 255)).
Proof.
  apply (strokes_to_image_uniform_scale flood_line sample_stroke_data 64 2 4).
  - lia.
  - split; [split; reflexivity|].
    repeat (constructor; try (split; vm_compute; reflexivity)).
  - vm_compute; reflexivity.
  - vm_compute; reflexivity.
Defined.

(** C3. For a valid drawing and a positive size, [strokes_to_image] returns
    a size by size grid of 8-bit values (the drawing surface keeping shape
    and range, as Pillow's does), and [image_to_tensor] turns every h by w
    grid of 8-bit values into a 1 by h by w array with values in [0, 1]. *)
Theorem rasterizer_tensor_shapes
    (draw_line : image -> point2 -> point2 -> Z -> Z -> image)
    (draw_line_shape : forall img a b fill width h w,
        has_shape h w img -> has_shape h w (draw_line img a b fill width))
    (draw_line_uint8 : forall img a b width,
        is_uint8 img -> is_uint8 (draw_line img a b 0 width))
    (d : Drawing) (size line_width padding : Z) :
  0 < size -> valid_drawing d ->
  int_in_range padding -> int_in_range (size - 2 * padding) ->
  (exists img,
      strokes_to_image draw_line (encode_drawing d) size line_width padding = Ok img /\
      has_shape (Z.to_nat size) (Z.to_nat size) img /\ is_uint8 img /\
      tensor_shape 1 (Z.to_nat size) (Z.to_nat size) (image_to_tensor img) /\
      tensor_in_unit (image_to_tensor img)) /\
  (forall (img : image) (h w : nat),
      has_shape h w img -> is_uint8 img ->
      tensor_shape 1 h w (image_to_tensor img) /\
      tensor_in_unit (image_to_tensor img)).
Proof.
  intros Hsize Hd Hpad Hnum.
  assert (Htensor : forall (img : image) (h w : nat),
             has_shape h w img -> is_uint8 img ->
             tensor_shape 1 h w (image_to_tensor img) /\
             tensor_in_unit (image_to_tensor img)).
  { intros img h w Hs Hp. split;
      [now apply image_to_tensor_shape | now apply image_to_tensor_unit]. }
  split; [|exact Htensor].
  eexists. split.
  - apply strokes_to_image_valid; [lia | assumption..].
  - destruct (spec_render_invariant draw_line draw_line_shape draw_line_uint8
                line_width
                (spec_segments (spec_scale size padding (canvas_of d)) padding d)
                (filled (Z.to_nat size) 255) (Z.to_nat size) (Z.to_nat size))
      as [Hs Hp]; [apply filled_shape | apply filled_uint8; lia |].
    destruct (Htensor _ _ _ Hs Hp) as [Hts Htu]. auto.
Qed.

Lemma rasterizer_tensor_shapes_witness :
  exists img,
    strokes_to_image flood_line (encode_drawing sample_stroke_data) 64 2 4 = Ok img /\
    has_shape 64 64 img /\ is_uint8 img /\
    tensor_shape 1 64 64 (image_to_tensor img) /\
    tensor_in_unit (image_to_tensor img).
Proof.
  apply (rasterizer_tensor_shapes flood_line flood_line_shape flood_line_uint8
           sample_stroke_data 64 2 4).
  - lia.
  - split; [split; reflexivity|].
    repeat (constructor; try (split; vm_compute; reflexivity)).
  - vm_compute; reflexivity.
  - vm_compute; reflexivity.
Defined.

(** C4. [image_to_tensor] computes [1.0 - pixel / 255.0] in float32 for every
    pixel under one leading channel dimension; an all-255 image becomes an
    all-zero tensor and an all-0 image an all-one tensor. *)
Theorem image_to_tensor_polarity (img : image) (h w : nat) :
  image_to_tensor img = [map (map normalize_pixel) img] /\
  image_to_tensor (repeat (repeat 255 w) h) = [repeat (repeat F32.zero w) h] /\
  image_to_tensor (repeat (repeat 0 w) h) = [repeat (repeat F32.one w) h].
Proof.
  split; [apply image_to_tensor_pointwise|].
  rewrite !image_to_tensor_pointwise, !map_repeat. split; reflexivity.
Qed.

(** C5. Strokes with fewer than two points are skipped: the image of a
    drawing is the image of its strokes with at least two points, whatever
    the skipped points hold; with no stroke of two points or more, in
    particular with no stroke at all, the image is all white for every
    positive canvas. *)
Theorem short_strokes_skipped
    (draw_line : image -> point2 -> point2 -> Z -> Z -> image)
    (d : Drawing) (size line_width padding : Z) :
  strokes_to_image draw_line (encode_drawing d) size line_width padding =
  strokes_to_image draw_line (encode_drawing (drawn_strokes d)) size line_width padding /\
  (0 < size -> positive_canvas d -> int_in_range (size - 2 * padding) ->
   Forall (fun s => (List.length (st_points s) < 2)%nat) (d_strokes d) ->
   strokes_to_image draw_line (encode_drawing d) size line_width padding =
     Ok (filled (Z.to_nat size) 255)).
Proof.
  assert (Hskip :
    strokes_to_image draw_line (encode_drawing d) size line_width padding =
    strokes_to_image draw_line (encode_drawing (drawn_strokes d)) size line_width padding).
  { rewrite !strokes_to_image_encode.
    destruct (Image_new size 255) as [img|e]; [|reflexivity]. cbn [bind].
    change (canvas_of (drawn_strokes d)) with (canvas_of d).
    destruct (compute_scale _ _ _ _) as [scale|e]; [|reflexivity]. cbn [bind].
    apply draw_strokes_drawn. }
  split; [exact Hskip|].
  intros Hsize [Hw Hh] Hnum Hshort. rewrite Hskip.
  rewrite strokes_to_image_encode. unfold Image_new.
  destruct (Z.ltb_spec size 0); [lia|]. cbn [bind].
  change (canvas_of (drawn_strokes d)) with (canvas_of d).
  rewrite compute_scale_valid by assumption. cbn [bind].
  replace (d_strokes (drawn_strokes d)) with (@nil StrokeRecord); [reflexivity|].
  unfold drawn_strokes. cbn [d_strokes].
  induction Hshort as [|s l Hs _ IH]; [reflexivity|].
  cbn [filter]. destruct (Z.leb_spec 2 (Z.of_nat (List.length (st_points s)))); [lia|].
  exact IH.
Qed.

Lemma short_strokes_skipped_witness :
  strokes_to_image flood_line
    (encode_drawing {| d_strokes := []; d_canvas := Some (NInt 800, NInt 600) |})
    64 2 4 = Ok (filled (Z.to_nat 64) 255).
Proof.
  apply (short_strokes_skipped flood_line
           {| d_strokes := []; d_canvas := Some (NInt 800, NInt 600) |} 64 2 4).
  - lia.
  - split; reflexivity.
  - vm_compute; reflexivity.
  - constructor.
Defined.

(** ** What the rasterizer rejects and what it lets through *)

Lemma truediv_int_nonzero (n : Z) (d : num) :
  int_in_range n -> num_is_zero d = false ->
  truediv_int n d =
    Ok match d with
       | NInt b => ratio n b
       | NFloat f => F64.div (F64.of_Z n) f
       end.
Proof.
  intros Hn Hd. destruct d as [b|f]; simpl in *.
  - apply int_truediv_in_range; [|assumption]. now apply Z.eqb_neq.
  - rewrite float_of_int_in_range by assumption. simpl. now rewrite Hd.
Qed.

Lemma truediv_int_zero (n : Z) (d : num) :
  int_in_range n -> num_is_zero d = true ->
  truediv_int n d = Raise ZeroDivisionError.
Proof.
  intros Hn Hd. destruct d as [b|f]; simpl in *.
  - unfold int_truediv. now rewrite Hd.
  - rewrite float_of_int_in_range by assumption. simpl. now rewrite Hd.
Qed.

Lemma mul_float_as_num (v : value) (n : num) (scale : spec_float) :
  as_num v = Some n -> num_in_range n ->
  mul_float v scale = Ok (F64.mul (to_float n) scale).
Proof.
  intros Hv Hn. unfold mul_float. rewrite Hv.
  destruct n as [z|f]; simpl in *; [|reflexivity].
  now rewrite float_of_int_in_range.
Qed.

Lemma to_coords_bad_point (scale : spec_float) (padding : Z)
    (good : list Point) (pt : value) (more : list value) (e : exn) :
  int_in_range padding -> Forall point_in_range good -> bad_point pt e ->
  to_coords scale padding padding (map encode_point good ++ pt :: more)%list = Raise e.
Proof.
  intros Hp Hgood Hbad. induction Hgood as [|p good [Hx Hy] _ IH].
  - cbn [map app to_coords].
    destruct Hbad as [pt Hnd | d Hx | d v Hx Hv | d v n Hx Hv Hn Hy | d v v' n Hx Hv Hn Hy Hv'].
    + destruct pt; try reflexivity. now destruct (Hnd d).
    + cbn [py_getitem]. now rewrite Hx.
    + cbn [py_getitem]. rewrite Hx. cbn [bind]. unfold mul_float. now rewrite Hv.
    + cbn [py_getitem]. rewrite Hx. cbn [bind].
      rewrite (mul_float_as_num _ _ _ Hv Hn). cbn [bind].
      rewrite (add_int_in_range _ _ Hp). cbn [bind]. now rewrite Hy.
    + cbn [py_getitem]. rewrite Hx. cbn [bind].
      rewrite (mul_float_as_num _ _ _ Hv Hn). cbn [bind].
      rewrite (add_int_in_range _ _ Hp). cbn [bind]. rewrite Hy. cbn [bind].
      unfold mul_float. now rewrite Hv'.
  - cbn [map app to_coords]. unfold encode_point at 1 2. cbn [py_getitem lookup].
    cbn [String.eqb Ascii.eqb Bool.eqb andb bind].
    rewrite (mul_float_encode _ _ Hx). cbn [bind].
    rewrite (add_int_in_range _ _ Hp). cbn [bind].
    rewrite (mul_float_encode _ _ Hy). cbn [bind].
    rewrite (add_int_in_range _ _ Hp). cbn [bind].
    now rewrite IH.
Qed.

Section RejectionProofs.

Variable draw_line : image -> point2 -> point2 -> Z -> Z -> image.

Lemma draw_strokes_app (scale : spec_float) (line_width padding : Z)
    (l1 l2 : list value) (img : image) :
  draw_strokes draw_line scale line_width padding (l1 ++ l2)%list img =
    (img' <- draw_strokes draw_line scale line_width padding l1 img ;;
     draw_strokes draw_line scale line_width padding l2 img').
Proof.
  revert img. induction l1 as [|s l1 IH]; intros img; [reflexivity|].
  cbn [app draw_strokes].
  destruct (draw_stroke _ _ _ _ _ _) as [img'|e]; [|reflexivity].
  cbn [bind]. apply IH.
Qed.

Lemma compute_scale_nonzero (size padding : Z) (c : num * num) :
  int_in_range (size - 2 * padding) ->
  num_is_zero (num_max (fst c) (snd c)) = false ->
  compute_scale size padding (encode_num (fst c)) (encode_num (snd c)) =
    Ok (spec_scale size padding c).
Proof.
  intros Hn Hz. unfold compute_scale, spec_scale.
  rewrite !as_num_encode. now apply truediv_int_nonzero.
Qed.

Lemma num_positive_nonzero (n : num) : num_positive n -> num_is_zero n = false.
Proof.
  destruct n as [z|f]; simpl; intros H.
  - apply Z.eqb_neq. lia.
  - destruct f; try discriminate; reflexivity.
Qed.

Lemma strokes_to_image_with_strokes (d : Drawing) (raw : list value)
    (size line_width padding : Z) :
  strokes_to_image draw_line (with_strokes d raw) size line_width padding =
    (img <- Image_new size 255 ;;
     scale <- compute_scale size padding (encode_num (fst (canvas_of d)))
                                         (encode_num (snd (canvas_of d))) ;;
     img' <- draw_strokes draw_line scale line_width padding
               (map encode_stroke (d_strokes d)) img ;;
     draw_strokes draw_line scale line_width padding raw img').
Proof.
  unfold strokes_to_image, with_strokes.
  destruct (Image_new size 255) as [img|e]; [|reflexivity].
  cbn [bind py_get lookup String.eqb Ascii.eqb Bool.eqb andb encode_canvas fst snd].
  destruct (compute_scale _ _ _ _) as [scale|e]; [|reflexivity].
  cbn [bind py_iter]. apply draw_strokes_app.
Qed.

(** A negative size stops at [Image.new]. *)
Lemma negative_size_rejected (data : value) (size line_width padding : Z) :
  size < 0 ->
  strokes_to_image draw_line data size line_width padding = Raise ValueError.
Proof.
  intros Hs. unfold strokes_to_image, Image_new.
  destruct (Z.ltb_spec size 0); [reflexivity | lia].
Qed.

(** A canvas whose larger dimension is zero stops at the division. *)
Lemma zero_canvas_rejected (fields : list (string * value)) (w h : num)
    (size line_width padding : Z) :
  0 <= size -> int_in_range (size - 2 * padding) ->
  lookup "canvas" fields = Some (encode_canvas (w, h)) ->
  num_is_zero (num_max w h) = true ->
  strokes_to_image draw_line (VDict fields) size line_width padding =
    Raise ZeroDivisionError /\
  compute_scale size padding (encode_num w) (encode_num h) = Raise ZeroDivisionError.
Proof.
  intros Hs Hn Hc Hz.
  assert (Hscale : compute_scale size padding (encode_num w) (encode_num h)
                   = Raise ZeroDivisionError).
  { unfold compute_scale. rewrite !as_num_encode. now apply truediv_int_zero. }
  split; [|exact Hscale].
  unfold strokes_to_image, Image_new.
  destruct (Z.ltb_spec size 0); [lia|]. cbn [bind py_get].
  destruct (lookup "strokes" fields); rewrite Hc;
    cbn [bind encode_canvas py_get lookup String.eqb Ascii.eqb Bool.eqb andb fst snd];
    now rewrite Hscale.
Qed.

(** A point that cannot be read, in a stroke of two points or more. *)
Lemma bad_point_rejected (d : Drawing) (good : list Point) (pt : value)
    (more rest : list value) (extra : list (string * value)) (e : exn)
    (size line_width padding : Z) :
  0 <= size -> valid_drawing d ->
  int_in_range padding -> int_in_range (size - 2 * padding) ->
  Forall point_in_range good -> bad_point pt e ->
  (2 <= List.length (map encode_point good ++ pt :: more))%nat ->
  strokes_to_image draw_line
    (with_strokes d
       (VDict (("points", VList (map encode_point good ++ pt :: more)%list) :: extra)
          :: rest))
    size line_width padding = Raise e.
Proof.
  intros Hs [[Hw Hh] Hpts] Hp Hn Hgood Hbad Hlen.
  rewrite strokes_to_image_with_strokes. unfold Image_new.
  destruct (Z.ltb_spec size 0); [lia|]. cbn [bind].
  rewrite compute_scale_valid by assumption. cbn [bind].
  rewrite draw_strokes_valid by assumption. cbn [bind draw_strokes].
  unfold draw_stroke.
  cbn [py_get lookup String.eqb Ascii.eqb Bool.eqb andb bind py_len py_iter].
  destruct (Z.ltb_spec (Z.of_nat (List.length (map encode_point good ++ pt :: more)%list)) 2);
    [lia|].
  now rewrite (to_coords_bad_point _ _ _ _ _ _ Hp Hgood Hbad).
Qed.

(** A stroke object without [points] is skipped. *)
Lemma missing_points_skipped (d : Drawing) (sf : list (string * value))
    (size line_width padding : Z) :
  lookup "points" sf = None ->
  strokes_to_image draw_line (with_strokes d [VDict sf]) size line_width padding =
  strokes_to_image draw_line (with_strokes d []) size line_width padding.
Proof.
  intros Hl. rewrite !strokes_to_image_with_strokes.
  destruct (Image_new size 255) as [img|e]; [|reflexivity]. cbn [bind].
  destruct (compute_scale _ _ _ _) as [scale|e]; [|reflexivity]. cbn [bind].
  destruct (draw_strokes _ _ _ _ _ _) as [img'|e]; [|reflexivity].
  cbn [bind draw_strokes]. unfold draw_stroke. cbn [py_get]. rewrite Hl.
  reflexivity.
Qed.

(** Any canvas whose larger dimension is not zero is accepted, a negative
    one too. *)
Lemma nonzero_canvas_accepted (d : Drawing) (size line_width padding : Z) :
  0 <= size ->
  num_is_zero (num_max (fst (canvas_of d)) (snd (canvas_of d))) = false ->
  Forall (fun s => Forall point_in_range (st_points s)) (d_strokes d) ->
  int_in_range padding -> int_in_range (size - 2 * padding) ->
  strokes_to_image draw_line (with_strokes d []) size line_width padding =
    Ok (spec_render draw_line line_width
          (spec_segments (spec_scale size padding (canvas_of d)) padding d)
          (filled (Z.to_nat size) 255)).
Proof.
  intros Hs Hz Hpts Hp Hn.
  rewrite strokes_to_image_with_strokes. unfold Image_new.
  destruct (Z.ltb_spec size 0); [lia|]. cbn [bind].
  rewrite compute_scale_nonzero by assumption. cbn [bind].
  rewrite draw_strokes_valid by assumption. reflexivity.
Qed.

End RejectionProofs.

(** C1, as stated, fails: a stroke object without [points] on a canvas of
    negative dimensions is rasterized to a blank image and nothing is
    raised. *)
Lemma strokes_to_image_accepts_malformed :
  py_getitem (VDict []) "points" = Raise KeyError /\
  py_get malformed_stroke_data "canvas" default_canvas =
    Ok (VDict [("width", VInt (-400)); ("height", VInt (-400))]) /\
  strokes_to_image flood_line malformed_stroke_data 64 2 4 = Ok (filled 64 255) /\
  ~ raises (strokes_to_image flood_line malformed_stroke_data 64 2 4).
Proof.
  assert (H : strokes_to_image flood_line malformed_stroke_data 64 2 4
              = Ok (filled 64 255)) by (vm_compute; reflexivity).
  repeat split; try reflexivity; try exact H.
  intros [e He]. rewrite H in He. discriminate.
Qed.

(** C1, amended. [strokes_to_image] checks nothing itself; it stops only
    where Pillow or Python stops, and then returns no image:
    a negative size raises [ValueError] in [Image.new], before anything
    else; a canvas whose larger dimension is zero raises
    [ZeroDivisionError] in the scale division itself; a point that is no
    dict, or whose [x] or [y] is missing or no number, in a stroke of two
    points or more raises [KeyError] or [TypeError]. A stroke object
    without [points] is skipped, and a canvas whose larger dimension is not
    zero, negative ones included, is accepted. *)
Theorem strokes_to_image_rejections
    (draw_line : image -> point2 -> point2 -> Z -> Z -> image)
    (d : Drawing) (size line_width padding : Z) :
  int_in_range padding -> int_in_range (size - 2 * padding) ->
  (size < 0 ->
   forall data,
     strokes_to_image draw_line data size line_width padding = Raise ValueError) /\
  (0 <= size ->
   forall fields w h,
     lookup "canvas" fields = Some (encode_canvas (w, h)) ->
     num_is_zero (num_max w h) = true ->
     strokes_to_image draw_line (VDict fields) size line_width padding =
       Raise ZeroDivisionError /\
     compute_scale size padding (encode_num w) (encode_num h) =
       Raise ZeroDivisionError) /\
  (0 <= size -> valid_drawing d ->
   forall good pt more rest extra e,
     Forall point_in_range good -> bad_point pt e ->
     (2 <= List.length (map encode_point good ++ pt :: more))%nat ->
     strokes_to_image draw_line
       (with_strokes d
          (VDict (("points", VList (map encode_point good ++ pt :: more)%list) :: extra)
             :: rest))
       size line_width padding = Raise e) /\
  (forall sf,
     lookup "points" sf = None ->
     strokes_to_image draw_line (with_strokes d [VDict sf]) size line_width padding =
     strokes_to_image draw_line (with_strokes d []) size line_width padding) /\
  (0 <= size ->
   num_is_zero (num_max (fst (canvas_of d)) (snd (canvas_of d))) = false ->
   Forall (fun s => Forall point_in_range (st_points s)) (d_strokes d) ->
   strokes_to_image draw_line (with_strokes d []) size line_width padding =
     Ok (spec_render draw_line line_width
           (spec_segments (spec_scale size padding (canvas_of d)) padding d)
           (filled (Z.to_nat size) 255))).
Proof.
  intros Hp Hn. split; [|split; [|split; [|split]]].
  - intros Hs data. now apply negative_size_rejected.
  - intros Hs fields w h Hc Hz. now apply zero_canvas_rejected.
  - intros Hs Hd good pt more rest extra e Hgood Hbad Hlen.
    now apply bad_point_rejected.
  - intros sf Hl. now apply missing_points_skipped.
  - intros Hs Hz Hpts. now apply nonzero_canvas_accepted.
Qed.

Lemma strokes_to_image_rejections_witness :
  strokes_to_image flood_line
    (VDict [("strokes", VList []);
            ("canvas", encode_canvas (NInt 0, NInt 0))]) 64 2 4 =
    Raise ZeroDivisionError /\
  strokes_to_image flood_line
    (with_strokes sample_stroke_data
       [VDict [("points", VList [encode_point (sample_point 1 2 0);
                                  VDict [("x", VInt 3)]])]]) 64 2 4 =
    Raise KeyError.
Proof.
  pose proof (strokes_to_image_rejections flood_line sample_stroke_data 64 2 4
                ltac:(vm_compute; reflexivity) ltac:(vm_compute; reflexivity))
    as (_ & Hzero & Hbad & _ & _).
  split.
  - apply (Hzero ltac:(lia) _ (NInt 0) (NInt 0)); reflexivity.
  - apply (Hbad ltac:(lia) sample_stroke_data_valid
             [sample_point 1 2 0] (VDict [("x", VInt 3)]) [] [] [] KeyError).
    + repeat constructor; vm_compute; reflexivity.
    + apply point_missing_y with (v := VInt 3) (n := NInt 3); reflexivity.
    + simpl; lia.
Defined.

(** ** Augmentation and batches *)

Lemma add_noise_uint8 (result : image) (noise : list (list Z)) :
  is_uint8 (add_noise result noise).
Proof.
  unfold is_uint8, add_noise, zip_with.
  apply Forall_map, Forall_forall. intros [row nrow] _. cbn [fst snd].
  apply Forall_map, Forall_forall. intros [p n] _. cbn [fst snd].
  unfold astype_uint8.
  pose proof (Z.mod_pos_bound (clip 0 255 (add_int32 p n)) 256 ltac:(lia)). lia.
Qed.

Section AugmentationProofs.

Variable np : Numpy.
Variable pil : Pillow.
Variable draw_line : image -> point2 -> point2 -> Z -> Z -> image.

Lemma augment_image_uint8 (img : image) (seed : option Z) (g g' : rng np)
    (a : image) :
  augment_image np pil img seed g = Ok (a, g') -> is_uint8 a.
Proof.
  unfold augment_image. intros H.
  destruct (match seed with Some s => np_random_seed np s | None => Ok g end)
    as [g0|e]; [|discriminate].
  cbn [bind] in H.
  destruct (np_random_uniform np (F64.of_Z (-15)) (F64.of_Z 15) g0) as [angle g1].
  destruct (np_random_uniform np (ratio 9 10) (ratio 11 10) g1) as [scale g2].
  destruct (float_of_int _) as [width|e]; [|discriminate]. cbn [bind] in H.
  destruct (py_int _) as [new_size|e]; [|discriminate]. cbn [bind] in H.
  destruct (pil_resize pil _ _ _) as [resized|e]; [|discriminate]. cbn [bind] in H.
  destruct (np_random_normal np 0 2 _ g2) as [noise g3].
  injection H as <- _. apply add_noise_uint8.
Qed.

Lemma preprocess_each_plain (l : list value) (size : Z) (g1 g2 : rng np) :
  output (preprocess_each np pil draw_line l size false g1) =
  output (preprocess_each np pil draw_line l size false g2).
Proof.
  induction l as [|data l IH]; [reflexivity|].
  cbn [preprocess_each].
  destruct (strokes_to_image draw_line data size 2 4) as [img|e]; [|reflexivity].
  cbn [bind fst snd].
  destruct (preprocess_each np pil draw_line l size false g1) as [[t1 s1]|e1];
    destruct (preprocess_each np pil draw_line l size false g2) as [[t2 s2]|e2];
    cbn [output bind fst snd] in *; congruence.
Qed.

Lemma batch_preprocess_plain (l : list value) (size : Z) (g1 g2 : rng np) :
  output (batch_preprocess np pil draw_line l size false g1) =
  output (batch_preprocess np pil draw_line l size false g2).
Proof.
  unfold batch_preprocess.
  pose proof (preprocess_each_plain l size g1 g2) as H.
  destruct (preprocess_each np pil draw_line l size false g1) as [[t1 s1]|e1];
    destruct (preprocess_each np pil draw_line l size false g2) as [[t2 s2]|e2];
    cbn [output bind fst snd] in *; try congruence.
  injection H as <-. destruct (np_stack t1); reflexivity.
Qed.

Lemma batch_preprocess_single (data : value) (size : Z) (g g' : rng np)
    (img a : image) :
  strokes_to_image draw_line data size 2 4 = Ok img ->
  augment_image np pil img None g = Ok (a, g') ->
  batch_preprocess np pil draw_line [data] size true g =
    Ok ([image_to_tensor a], g').
Proof.
  intros Himg Haug. unfold batch_preprocess. cbn [preprocess_each].
  rewrite Himg. cbn [bind]. rewrite Haug. reflexivity.
Qed.

End AugmentationProofs.

(** C6. With a seed given, [augment_image] does not depend on the state the
    global generator was in: two applications to one image with one seed
    give the same image (and leave the generator in the same state),
    whatever was drawn in between. *)
Theorem augment_image_seeded_deterministic
    (np : Numpy) (pil : Pillow) (img : image) (seed : Z) (g1 g2 : rng np) :
  augment_image np pil img (Some seed) g1 = augment_image np pil img (Some seed) g2.
Proof.
  unfold augment_image.
  destruct (np_random_seed np seed) as [g|e]; reflexivity.
Qed.

(** C9. [batch_preprocess] with [augment=True] augments with no seed, so
    its result is that of the unseeded augmentation in the current state
    of the global generator: two calls on one input list whose draws differ
    give different batches, while without augmentation the batch does not
    depend on the generator. *)
Theorem batch_preprocess_depends_on_generator
    (np : Numpy) (pil : Pillow)
    (draw_line : image -> point2 -> point2 -> Z -> Z -> image)
    (data : value) (size : Z) (g1 g2 g1' g2' : rng np) (img a1 a2 : image) :
  strokes_to_image draw_line data size 2 4 = Ok img ->
  augment_image np pil img None g1 = Ok (a1, g1') ->
  augment_image np pil img None g2 = Ok (a2, g2') ->
  a1 <> a2 ->
  batch_preprocess np pil draw_line [data] size true g1 = Ok ([image_to_tensor a1], g1') /\
  batch_preprocess np pil draw_line [data] size true g2 = Ok ([image_to_tensor a2], g2') /\
  output (batch_preprocess np pil draw_line [data] size true g1) <>
  output (batch_preprocess np pil draw_line [data] size true g2) /\
  (forall l, output (batch_preprocess np pil draw_line l size false g1) =
             output (batch_preprocess np pil draw_line l size false g2)).
Proof.
  intros Himg H1 H2 Hne.
  pose proof (batch_preprocess_single np pil draw_line data size g1 g1' img a1 Himg H1) as B1.
  pose proof (batch_preprocess_single np pil draw_line data size g2 g2' img a2 Himg H2) as B2.
  split; [exact B1|]. split; [exact B2|]. split.
  - rewrite B1, B2. cbn [output]. intros E.
    assert (Et : [image_to_tensor a1] = [image_to_tensor a2]) by congruence.
    apply Hne. apply image_to_tensor_inj; [| |exact (f_equal (@hd tensor3 []) Et)].
    + eapply augment_image_uint8; exact H1.
    + eapply augment_image_uint8; exact H2.
  - intros l. apply batch_preprocess_plain.
Qed.

Lemma batch_preprocess_depends_on_generator_witness :
  output (batch_preprocess counter_numpy still_pillow flood_line
            [encode_drawing {| d_strokes := []; d_canvas := None |}] 2 true (-2)) <>
  output (batch_preprocess counter_numpy still_pillow flood_line
            [encode_drawing {| d_strokes := []; d_canvas := None |}] 2 true (-7)).
Proof.
  apply (batch_preprocess_depends_on_generator counter_numpy still_pillow flood_line
           (encode_drawing {| d_strokes := []; d_canvas := None |}) 2
           (-2) (-7) 1 (-4)
           [[255; 255]; [255; 255]] [[255; 255]; [255; 255]] [[250; 250]; [250; 250]]).
  - vm_compute; reflexivity.
  - vm_compute; reflexivity.
  - vm_compute; reflexivity.
  - discriminate.
Defined.

(** C10. On an empty list [batch_preprocess] raises: [np.stack] refuses an
    empty sequence, so no empty batch is returned. *)
Theorem batch_preprocess_empty_raises
    (np : Numpy) (pil : Pillow)
    (draw_line : image -> point2 -> point2 -> Z -> Z -> image)
    (size : Z) (augment : bool) (g : rng np) :
  batch_preprocess np pil draw_line [] size augment g = Raise ValueError /\
  raises (batch_preprocess np pil draw_line [] size augment g) /\
  ~ returns (batch_preprocess np pil draw_line [] size augment g).
Proof.
  assert (H : batch_preprocess np pil draw_line [] size augment g = Raise ValueError)
    by reflexivity.
  split; [exact H|]. split.
  - now exists ValueError.
  - apply raises_not_returns. now exists ValueError.
Qed.

(** ** The classifier *)

Lemma bn_batch_not_one (n hw : nat) :
  (0 < n)%nat -> (1 < hw)%nat -> Nat.eqb (n * hw) 1 = false.
Proof.
  intros Hn Hhw. apply Nat.eqb_neq. nia.
Qed.


Section ClassifierProofs.

Variable T : Torch.
Hypothesis contract : torch_contract T.

Lemma apply_layers_app (training : bool) (l1 l2 : list layer) (x : Tensor T)
    (st : torch_state T) :
  apply_layers T training (l1 ++ l2)%list x st =
    (y <- apply_layers T training l1 x st ;; apply_layers T training l2 (fst y) (snd y)).
Proof.
  revert x st. induction l1 as [|l l1 IH]; intros x st; [reflexivity|].
  cbn [app apply_layers]. destruct (apply_layer T training l x st); [|reflexivity].
  cbn [bind]. apply IH.
Qed.

Lemma bind_Ok_r {A : Type} (m : result A) : (x <- m ;; Ok x) = m.
Proof. destruct m; reflexivity. Qed.

Lemma features_forward_layers (training : bool) (ms : list DepthwiseSeparableConv)
    (x : Tensor T) (st : torch_state T) :
  features_forward T training ms x st =
  apply_layers T training (flat_map DepthwiseSeparableConv_forward ms) x st.
Proof.
  revert x st. induction ms as [|m ms IH]; intros x st; [reflexivity|].
  cbn [features_forward flat_map]. rewrite apply_layers_app.
  unfold dsc_forward, DepthwiseSeparableConv_forward. cbn [apply_layers].
  destruct (apply_layer T training (depthwise m) x st) as [x1|]; [|reflexivity].
  cbn [bind].
  destruct (apply_layer T training (bn1 m) (fst x1) (snd x1)) as [x2|]; [|reflexivity].
  cbn [bind].
  destruct (apply_layer T training ReLU (fst x2) (snd x2)) as [x3|]; [|reflexivity].
  cbn [bind].
  destruct (apply_layer T training (pointwise m) (fst x3) (snd x3)) as [x4|];
    [|reflexivity].
  cbn [bind].
  destruct (apply_layer T training (bn2 m) (fst x4) (snd x4)) as [x5|]; [|reflexivity].
  cbn [bind].
  destruct (apply_layer T training ReLU (fst x5) (snd x5)) as [x6|]; [|reflexivity].
  cbn [bind]. destruct x6 as [x6 st6]. apply IH.
Qed.

(** [forward] applies the modules of [DoodleNet_forward_layers] in order,
    each from the state the one before has left. *)
Lemma forward_layers (m : DoodleNet) (x : Tensor T) (st : torch_state T) :
  forward T m x st = apply_layers T (training m) (DoodleNet_forward_layers m) x st.
Proof.
  unfold forward, DoodleNet_forward_layers.
  rewrite apply_layers_app.
  destruct (apply_layers T (training m) (conv1 m) x st) as [x1|]; [|reflexivity].
  cbn [bind]. rewrite features_forward_layers, apply_layers_app.
  destruct (apply_layers T (training m) _ (fst x1) (snd x1)) as [x2|]; [|reflexivity].
  cbn [bind app apply_layers].
  destruct (apply_layer T (training m) (avgpool m) (fst x2) (snd x2)) as [x3|];
    [|reflexivity].
  cbn [bind].
  destruct (apply_layer T (training m) Flatten (fst x3) (snd x3)) as [x4|];
    [|reflexivity].
  cbn [bind]. apply bind_Ok_r.
Qed.

Lemma apply_layers_shape (training : bool) (ls : list layer) (x : Tensor T)
    (st : torch_state T) (s : shape) :
  shape_through training ls (tensor_dims T x) = Ok s ->
  exists y st', apply_layers T training ls x st = Ok (y, st') /\ tensor_dims T y = s.
Proof.
  revert x st. induction ls as [|l ls IH]; intros x st H.
  - cbn in H. injection H as <-. now exists x, st.
  - cbn [shape_through] in H. apply bind_Ok in H. destruct H as (s1 & H1 & H2).
    destruct (proj1 contract training l x st s1 H1) as (y & st1 & Hy & Hdy).
    cbn [apply_layers]. rewrite Hy. cbn [bind fst snd]. apply IH. now rewrite Hdy.
Qed.

End ClassifierProofs.

(** *** The order of float32 numbers that are not negative *)







(** *** The maximum of a row *)







Lemma shape_torch_contract : torch_contract shape_torch.
Proof.
  split.
  - intros training l x st s H. exists s, st. cbn [apply_layer shape_torch tensor_dims] in *.
    rewrite H. split; reflexivity.
  - intros x n c H. cbn in H. subst x. cbn [rows shape_torch].
    split; [apply repeat_length|].
    apply Forall_forall. intros row Hrow. apply repeat_spec in Hrow. subst row.
    apply repeat_length.
Qed.





(** ** Loading weights *)








(** * Further properties *)

(** ** The rasterizer reads only strokes, points, x, y and the canvas *)

Lemma to_coords_agree (scale : spec_float) (ox oy : Z) (pts pts' : list value) :
  Forall2 point_agree pts pts' ->
  to_coords scale ox oy pts = to_coords scale ox oy pts'.
Proof.
  induction 1 as [|p p' pts pts' Hp _ IH]; [reflexivity|].
  destruct Hp as [d d' Hx Hy]. cbn [to_coords py_getitem].
  rewrite Hx, Hy, IH. reflexivity.
Qed.

Section AgreementProofs.

Variable draw_line : image -> point2 -> point2 -> Z -> Z -> image.

Lemma draw_stroke_agree (scale : spec_float) (line_width padding : Z)
    (img : image) (s s' : value) :
  stroke_agree s s' ->
  draw_stroke draw_line scale line_width padding img s =
  draw_stroke draw_line scale line_width padding img s'.
Proof.
  intros [d d' H H' | d d' pts pts' H H' Hpts]; unfold draw_stroke; cbn [py_get];
    rewrite H, H'; [reflexivity|].
  cbn [bind py_len py_iter]. rewrite (Forall2_length Hpts).
  now rewrite (to_coords_agree scale padding padding pts pts' Hpts).
Qed.

Lemma draw_strokes_agree (scale : spec_float) (line_width padding : Z)
    (ss ss' : list value) (img : image) :
  Forall2 stroke_agree ss ss' ->
  draw_strokes draw_line scale line_width padding ss img =
  draw_strokes draw_line scale line_width padding ss' img.
Proof.
  intros H. revert img. induction H as [|s s' ss ss' Hs _ IH]; intros img;
    [reflexivity|].
  cbn [draw_strokes]. rewrite (draw_stroke_agree _ _ _ _ _ _ Hs).
  destruct (draw_stroke _ _ _ _ _ _); [|reflexivity]. cbn [bind]. apply IH.
Qed.

Lemma strokes_to_image_agree (a b : value) (size line_width padding : Z) :
  data_agree a b ->
  strokes_to_image draw_line a size line_width padding =
  strokes_to_image draw_line b size line_width padding.
Proof.
  intros [f f' ss ss' Hs Hs' Hss Hc]. unfold strokes_to_image.
  destruct (Image_new size 255) as [img|e]; [|reflexivity].
  cbn [bind py_get]. rewrite Hs, Hs'. cbn [bind].
  unfold canvas_agree in Hc.
  destruct (lookup "canvas" f) as [[| | | | | |c]|];
    destruct (lookup "canvas" f') as [[| | | | | |c']|]; try contradiction.
  - destruct Hc as [Hw Hh]. cbn [bind py_get]. rewrite Hw, Hh.
    destruct (lookup "width" c'), (lookup "height" c'); cbn [bind];
      (destruct (compute_scale _ _ _ _); [|reflexivity]);
      cbn [bind py_iter]; now apply draw_strokes_agree.
  - cbn [bind py_get default_canvas lookup String.eqb Ascii.eqb Bool.eqb andb].
    destruct (compute_scale _ _ _ _); [|reflexivity].
    cbn [bind py_iter]. now apply draw_strokes_agree.
Qed.

End AgreementProofs.

Lemma plain_drawing_agree (d : Drawing) :
  data_agree (encode_drawing d) (encode_drawing (plain_drawing d)).
Proof.
  unfold encode_drawing, plain_drawing. cbn [d_strokes d_canvas].
  eapply data_agree_dict; try reflexivity.
  - induction (d_strokes d) as [|s ss IH]; [constructor|].
    cbn [map]. constructor; [|exact IH].
    unfold encode_stroke. cbn [st_points st_extra].
    eapply stroke_agree_points; try reflexivity.
    induction (st_points s) as [|p ps IHp]; [constructor|].
    cbn [map]. constructor; [|exact IHp].
    unfold encode_point. cbn [pt_x pt_y pt_extra]. constructor; reflexivity.
  - destruct (d_canvas d) as [c|]; cbn; auto.
Qed.

(** X1. [strokes_to_image] reads nothing but the strokes, their points'
    [x] and [y] and the canvas dimensions: two objects that agree on these
    give the same result, image or exception; so pressure, timestamp,
    colour and width of a drawing do not change its image. *)
Theorem strokes_to_image_reads_geometry_only
    (draw_line : image -> point2 -> point2 -> Z -> Z -> image)
    (a b : value) (size line_width padding : Z) :
  data_agree a b ->
  strokes_to_image draw_line a size line_width padding =
  strokes_to_image draw_line b size line_width padding.
Proof.
  apply strokes_to_image_agree.
Qed.

Lemma strokes_to_image_reads_geometry_only_witness :
  strokes_to_image flood_line (encode_drawing sample_stroke_data) 64 2 4 =
  strokes_to_image flood_line (encode_drawing (plain_drawing sample_stroke_data)) 64 2 4.
Proof.
  apply (strokes_to_image_reads_geometry_only flood_line
           (encode_drawing sample_stroke_data)
           (encode_drawing (plain_drawing sample_stroke_data)) 64 2 4).
  apply plain_drawing_agree.
Defined.

(** ** Defaults of the canvas *)

(** X2. A missing canvas is the canvas 400 by 400, and a canvas without
    [width] or without [height] has 400 for the missing side. *)
Theorem strokes_to_image_canvas_defaults
    (draw_line : image -> point2 -> point2 -> Z -> Z -> image)
    (fields canvas : list (string * value)) (size line_width padding : Z) :
  (lookup "canvas" fields = None ->
   strokes_to_image draw_line (VDict fields) size line_width padding =
   strokes_to_image draw_line (VDict (("canvas", default_canvas) :: fields))
     size line_width padding) /\
  (lookup "canvas" fields = Some (VDict canvas) ->
   lookup "width" canvas = None ->
   strokes_to_image draw_line (VDict fields) size line_width padding =
   strokes_to_image draw_line
     (VDict (("canvas", VDict (("width", VInt 400) :: canvas)) :: fields))
     size line_width padding) /\
  (lookup "canvas" fields = Some (VDict canvas) ->
   lookup "height" canvas = None ->
   strokes_to_image draw_line (VDict fields) size line_width padding =
   strokes_to_image draw_line
     (VDict (("canvas", VDict (("height", VInt 400) :: canvas)) :: fields))
     size line_width padding).
Proof.
  unfold strokes_to_image.
  destruct (Image_new size 255) as [img|e]; [|repeat split; reflexivity].
  cbn [bind py_get lookup String.eqb Ascii.eqb Bool.eqb andb].
  split; [|split].
  - intros Hc. rewrite Hc. reflexivity.
  - intros Hc Hw. rewrite Hc. cbn [bind py_get lookup String.eqb Ascii.eqb Bool.eqb andb].
    rewrite Hw. reflexivity.
  - intros Hc Hh. rewrite Hc. cbn [bind py_get lookup String.eqb Ascii.eqb Bool.eqb andb].
    rewrite Hh. reflexivity.
Qed.

Lemma strokes_to_image_canvas_defaults_witness :
  strokes_to_image flood_line (VDict [("strokes", VList [])]) 64 2 4 =
  strokes_to_image flood_line
    (VDict [("canvas", default_canvas); ("strokes", VList [])]) 64 2 4.
Proof.
  apply (proj1 (strokes_to_image_canvas_defaults flood_line
                  [("strokes", VList [])] [] 64 2 4)).
  reflexivity.
Defined.

(** ** Only the larger canvas side counts *)

Lemma num_max_ints (w h : Z) : num_max (NInt w) (NInt h) = NInt (Z.max w h).
Proof.
  unfold num_max, num_gt. destruct (Z.ltb_spec w h); f_equal; lia.
Qed.

(** X3. With integer canvas dimensions the image depends on the larger
    side only: a [w] by [h] canvas gives what the square canvas of side
    [max w h] gives, and so does the [h] by [w] canvas. *)
Theorem strokes_to_image_larger_side
    (draw_line : image -> point2 -> point2 -> Z -> Z -> image)
    (fields : list (string * value)) (w h : Z) (size line_width padding : Z) :
  strokes_to_image draw_line
    (VDict (("canvas", encode_canvas (NInt w, NInt h)) :: fields))
    size line_width padding =
  strokes_to_image draw_line
    (VDict (("canvas", encode_canvas (NInt (Z.max w h), NInt (Z.max w h))) :: fields))
    size line_width padding /\
  strokes_to_image draw_line
    (VDict (("canvas", encode_canvas (NInt w, NInt h)) :: fields))
    size line_width padding =
  strokes_to_image draw_line
    (VDict (("canvas", encode_canvas (NInt h, NInt w)) :: fields))
    size line_width padding.
Proof.
  assert (Hscale : forall a b,
             compute_scale size padding (VInt a) (VInt b) =
             truediv_int (size - 2 * padding) (NInt (Z.max a b))).
  { intros a b. unfold compute_scale. cbn [as_num]. now rewrite num_max_ints. }
  unfold strokes_to_image.
  destruct (Image_new size 255) as [img|e]; [|split; reflexivity].
  cbn [bind py_get lookup String.eqb Ascii.eqb Bool.eqb andb encode_canvas
       encode_num fst snd].
  destruct (lookup "strokes" fields) as [ss|];
    cbn [bind py_get lookup String.eqb Ascii.eqb Bool.eqb andb];
    rewrite !Hscale, (Z.max_comm h w), Z.max_id; split; reflexivity.
Qed.

(** ** Strokes are drawn in order *)

Lemma spec_segments_app (scale : spec_float) (padding : Z)
    (s1 s2 : list StrokeRecord) (c : option (num * num)) :
  spec_segments scale padding {| d_strokes := s1 ++ s2; d_canvas := c |} =
  (spec_segments scale padding {| d_strokes := s1; d_canvas := c |} ++
   spec_segments scale padding {| d_strokes := s2; d_canvas := c |})%list.
Proof.
  unfold spec_segments, drawn_strokes. cbn [d_strokes].
  now rewrite filter_app, flat_map_app.
Qed.

(** X4. Strokes are drawn in list order on one image: the image of the
    strokes [s1 ++ s2] is the image of [s1] with the segments of [s2] drawn
    over it. *)
Theorem strokes_to_image_in_order
    (draw_line : image -> point2 -> point2 -> Z -> Z -> image)
    (s1 s2 : list StrokeRecord) (c : option (num * num))
    (size line_width padding : Z) :
  0 <= size ->
  valid_drawing {| d_strokes := s1 ++ s2; d_canvas := c |} ->
  int_in_range padding -> int_in_range (size - 2 * padding) ->
  strokes_to_image draw_line
    (encode_drawing {| d_strokes := s1 ++ s2; d_canvas := c |})
    size line_width padding =
  (img <- strokes_to_image draw_line
            (encode_drawing {| d_strokes := s1; d_canvas := c |})
            size line_width padding ;;
   Ok (spec_render draw_line line_width
         (spec_segments
            (spec_scale size padding (canvas_of {| d_strokes := s2; d_canvas := c |}))
            padding {| d_strokes := s2; d_canvas := c |})
         img)).
Proof.
  intros Hsize [Hc Hpts] Hp Hn. cbn [d_strokes] in Hpts.
  apply Forall_app in Hpts. destruct Hpts as [H1 H2].
  assert (V12 : valid_drawing {| d_strokes := s1 ++ s2; d_canvas := c |})
    by (split; [exact Hc | now apply Forall_app]).
  assert (V1 : valid_drawing {| d_strokes := s1; d_canvas := c |})
    by (split; [exact Hc | exact H1]).
  rewrite (strokes_to_image_valid draw_line _ size line_width padding Hsize V12 Hp Hn).
  rewrite (strokes_to_image_valid draw_line _ size line_width padding Hsize V1 Hp Hn).
  cbn [bind]. unfold canvas_of. cbn [d_canvas].
  rewrite spec_segments_app. unfold spec_render. now rewrite fold_left_app.
Qed.

Lemma strokes_to_image_in_order_witness :
  strokes_to_image flood_line
    (encode_drawing {| d_strokes := d_strokes sample_stroke_data ++ d_strokes sample_stroke_data;
                       d_canvas := None |}) 64 2 4 =
  (img <- strokes_to_image flood_line
            (encode_drawing {| d_strokes := d_strokes sample_stroke_data;
                               d_canvas := None |}) 64 2 4 ;;
   Ok (spec_render flood_line 2
         (spec_segments
            (spec_scale 64 4
               (canvas_of {| d_strokes := d_strokes sample_stroke_data; d_canvas := None |}))
            4 {| d_strokes := d_strokes sample_stroke_data; d_canvas := None |})
         img)).
Proof.
  apply (strokes_to_image_in_order flood_line (d_strokes sample_stroke_data)
           (d_strokes sample_stroke_data) None 64 2 4).
  - lia.
  - split; [split; reflexivity|].
    repeat (constructor; try (split; vm_compute; reflexivity)).
  - vm_compute; reflexivity.
  - vm_compute; reflexivity.
Defined.

(** ** Padding that takes the whole image *)

Lemma binary_round_aux_not_nan (prec emax : Z) (s : bool) (m e : Z) (l : location) :
  0 <= m -> binary_round_aux prec emax s m e l <> S754_nan.
Proof.
  intros Hm. unfold binary_round_aux.
  destruct (shr_fexp_spec prec emax m e l Hm) as (mrs1 & n1 & -> & Hn1 & _ & Hm1).
  pose proof (round_nearest_even_bounds (shr_m mrs1) (loc_of_shr_record mrs1)) as Hr.
  assert (H1 : 0 <= shr_m mrs1) by (rewrite Hm1; apply Z.shiftr_nonneg; lia).
  specialize (Hr H1).
  destruct (shr_fexp_spec prec emax
              (round_nearest_even (shr_m mrs1) (loc_of_shr_record mrs1))
              (e + n1) loc_Exact ltac:(lia)) as (mrs2 & n2 & -> & Hn2 & _ & Hm2).
  assert (H2 : 0 <= shr_m mrs2) by (rewrite Hm2; apply Z.shiftr_nonneg; lia).
  destruct (shr_m mrs2) as [|q|q]; try discriminate; [|lia].
  destruct (e + n1 + n2 <=? emax - prec); discriminate.
Qed.

Lemma binary_round_aux_zero_sign (prec emax : Z) (s s' : bool) (m e : Z) (l : location) :
  binary_round_aux prec emax s m e l = S754_zero s' -> s' = s.
Proof.
  unfold binary_round_aux.
  destruct (shr_fexp prec emax m e l) as [mrs1 e1].
  destruct (shr_fexp prec emax _ e1 loc_Exact) as [mrs2 e2].
  destruct (shr_m mrs2); try discriminate.
  - intros H. now injection H.
  - destruct (e2 <=? emax - prec); discriminate.
Qed.

Lemma of_Z_finite (z : Z) : int_in_range z -> float_finite (F64.of_Z z).
Proof.
  intros Hz.
  pose proof (float_of_int_in_range z Hz) as Hf. unfold float_of_int in Hf.
  assert (Hnan : F64.of_Z z <> S754_nan).
  { unfold F64.of_Z, binary_normalize, binary_round.
    destruct z as [|p|p]; [discriminate| |];
      destruct (shl_align _ _ _) as [mz ez]; apply binary_round_aux_not_nan; lia. }
  destruct (F64.of_Z z); cbn in *; try exact I; [discriminate | congruence].
Qed.

Lemma of_Z_zero_sign (z : Z) (s : bool) :
  0 <= z -> F64.of_Z z = S754_zero s -> s = false.
Proof.
  intros Hz. unfold F64.of_Z, binary_normalize, binary_round.
  destruct z as [|p|p]; [intros H; now injection H | | lia].
  destruct (shl_align _ _ _) as [mz ez]. apply binary_round_aux_zero_sign.
Qed.

Lemma spec_scale_zero (padding : Z) (c : num * num) :
  num_positive (fst c) -> num_positive (snd c) ->
  spec_scale (2 * padding) padding c = F64.zero.
Proof.
  intros Hw Hh. unfold spec_scale. rewrite Z.sub_diag.
  pose proof (num_max_positive _ _ Hw Hh) as Hm.
  destruct (num_max (fst c) (snd c)) as [b|f]; cbn in Hm.
  - destruct b; try lia. reflexivity.
  - destruct f as [s|s| |s m e]; try discriminate; destruct s; try discriminate;
      reflexivity.
Qed.

Lemma to_float_finite (n : num) : num_finite n -> float_finite (to_float n).
Proof.
  destruct n as [z|f]; cbn; [apply of_Z_finite | auto].
Qed.

Lemma spec_point_zero_scale (padding : Z) (p : Point) :
  0 <= padding -> point_finite p ->
  spec_point F64.zero padding p = (F64.of_Z padding, F64.of_Z padding).
Proof.
  intros Hp [Hx Hy].
  assert (Hcoord : forall n, num_finite n ->
             F64.add (F64.mul (to_float n) F64.zero) (F64.of_Z padding)
             = F64.of_Z padding).
  { intros n Hn. pose proof (to_float_finite n Hn) as Hf.
    pose proof (of_Z_zero_sign padding) as Hs.
    destruct (to_float n) as [s| | |s m e]; try contradiction;
      cbn [F64.mul SFmul F64.zero];
      destruct (F64.of_Z padding) as [sp|sp| |sp mp ep]; try reflexivity;
      rewrite (Hs sp Hp eq_refl); destruct s; reflexivity. }
  unfold spec_point. now rewrite (Hcoord _ Hx), (Hcoord _ Hy).
Qed.

Lemma consecutive_all_equal {A : Type} (a : A) (l : list A) :
  Forall (eq a) l -> Forall (eq (a, a)) (consecutive l).
Proof.
  induction 1 as [|x l <- Hl IH]; [constructor|].
  destruct Hl as [|y l <- Hl]; [constructor|].
  cbn [consecutive]. constructor; [reflexivity | exact IH].
Qed.

(** X5. When the padding takes the whole image ([size = 2 * padding])
    nothing is raised: the scale is [0.0], every finite point is mapped to
    [(padding, padding)], and every segment drawn is the degenerate one
    from that point to itself. *)
Theorem strokes_to_image_zero_scale
    (draw_line : image -> point2 -> point2 -> Z -> Z -> image)
    (d : Drawing) (line_width padding : Z) :
  0 <= padding -> int_in_range padding -> positive_canvas d ->
  Forall (fun s => Forall point_finite (st_points s)) (d_strokes d) ->
  let corner := (F64.of_Z padding, F64.of_Z padding) in
  spec_scale (2 * padding) padding (canvas_of d) = F64.zero /\
  Forall (eq (corner, corner)) (spec_segments F64.zero padding d) /\
  strokes_to_image draw_line (encode_drawing d) (2 * padding) line_width padding =
    Ok (spec_render draw_line line_width (spec_segments F64.zero padding d)
          (filled (Z.to_nat (2 * padding)) 255)).
Proof.
  intros Hp Hr [Hw Hh] Hpts corner.
  assert (Hscale : spec_scale (2 * padding) padding (canvas_of d) = F64.zero)
    by now apply spec_scale_zero.
  split; [exact Hscale|]. split.
  - unfold spec_segments, drawn_strokes. cbn [d_strokes].
    induction Hpts as [|s ss Hs _ IH]; [constructor|].
    cbn [filter]. destruct (2 <=? Z.of_nat (List.length (st_points s))); [|exact IH].
    cbn [flat_map]. apply Forall_app. split; [|exact IH].
    apply consecutive_all_equal. apply Forall_map.
    eapply Forall_impl; [|exact Hs]. intros p Hpf. cbn beta.
    symmetry. now apply spec_point_zero_scale.
  - rewrite <- Hscale. apply strokes_to_image_valid.
    + lia.
    + split; [now split|].
      eapply Forall_impl; [|exact Hpts]. intros s Hs.
      eapply Forall_impl; [|exact Hs]. intros p [Hx Hy].
      split; [destruct (pt_x p) | destruct (pt_y p)]; cbn in *; auto.
    + exact Hr.
    + rewrite Z.sub_diag. vm_compute. reflexivity.
Qed.

Lemma strokes_to_image_zero_scale_witness :
  Forall (eq ((F64.of_Z 32, F64.of_Z 32), (F64.of_Z 32, F64.of_Z 32)))
         (spec_segments F64.zero 32 sample_stroke_data).
Proof.
  apply (strokes_to_image_zero_scale flood_line sample_stroke_data 2 32).
  - lia.
  - vm_compute; reflexivity.
  - split; reflexivity.
  - repeat (constructor; try (split; vm_compute; reflexivity)).
Defined.

(** ** Objects of the wrong type *)

(** X6. An object, or a canvas, that is no dict raises [AttributeError];
    canvas dimensions that are no numbers raise [TypeError]; strokes that
    cannot be iterated (null, a number) raise [TypeError], but only after
    the scale has been computed. *)
Theorem strokes_to_image_type_errors
    (draw_line : image -> point2 -> point2 -> Z -> Z -> image)
    (size line_width padding : Z) :
  0 <= size ->
  (forall data,
     not_dict data ->
     strokes_to_image draw_line data size line_width padding = Raise AttributeError) /\
  (forall fields c,
     lookup "canvas" fields = Some c -> not_dict c ->
     strokes_to_image draw_line (VDict fields) size line_width padding =
       Raise AttributeError) /\
  (forall fields c w h,
     lookup "canvas" fields = Some (VDict c) ->
     lookup "width" c = Some w -> lookup "height" c = Some h ->
     as_num w = None \/ as_num h = None ->
     strokes_to_image draw_line (VDict fields) size line_width padding =
       Raise TypeError) /\
  (forall fields strokes c scale,
     lookup "strokes" fields = Some strokes -> not_iterable strokes ->
     lookup "canvas" fields = Some (encode_canvas c) ->
     compute_scale size padding (encode_num (fst c)) (encode_num (snd c)) = Ok scale ->
     strokes_to_image draw_line (VDict fields) size line_width padding =
       Raise TypeError).
Proof.
  intros Hsize. unfold strokes_to_image, Image_new.
  destruct (Z.ltb_spec size 0); [lia|]. cbn [bind].
  split; [|split; [|split]].
  - intros data Hnd. destruct data; try reflexivity. now destruct (Hnd d).
  - intros fields c Hc Hnd. cbn [py_get]. rewrite Hc.
    destruct (lookup "strokes" fields); cbn [bind];
      destruct c; try reflexivity; now destruct (Hnd d).
  - intros fields c w h Hc Hw Hh Hnum. cbn [py_get]. rewrite Hc.
    destruct (lookup "strokes" fields); cbn [bind py_get]; rewrite Hw, Hh;
      cbn [bind]; unfold compute_scale;
      destruct Hnum as [-> | ->]; try reflexivity; destruct (as_num w); reflexivity.
  - intros fields strokes c scale Hs Hni Hc Hscale. cbn [py_get]. rewrite Hs, Hc.
    cbn [bind encode_canvas py_get lookup String.eqb Ascii.eqb Bool.eqb andb].
    rewrite Hscale. cbn [bind].
    destruct strokes; try contradiction; reflexivity.
Qed.

Lemma strokes_to_image_type_errors_witness :
  strokes_to_image flood_line (VDict [("strokes", VList []); ("canvas", VNone)]) 64 2 4 =
    Raise AttributeError /\
  strokes_to_image flood_line (VDict [("strokes", VNone);
                                      ("canvas", encode_canvas (NInt 400, NInt 400))])
    64 2 4 = Raise TypeError.
Proof.
  pose proof (strokes_to_image_type_errors flood_line 64 2 4 ltac:(lia))
    as (_ & Hcanvas & _ & Hstrokes).
  split.
  - apply (Hcanvas _ VNone); [reflexivity | discriminate].
  - apply (Hstrokes _ VNone (NInt 400, NInt 400) (ratio 56 400));
      try reflexivity; try exact I.
Defined.

(** ** The tensor preparer loses nothing and reverses the order *)

(** X7. [image_to_tensor] is injective on 8-bit images: two images with
    the same tensor are the same image. *)
Theorem image_to_tensor_lossless (a b : image) :
  is_uint8 a -> is_uint8 b -> image_to_tensor a = image_to_tensor b -> a = b.
Proof.
  apply image_to_tensor_inj.
Qed.

Lemma image_to_tensor_lossless_witness :
  [[0; 255]; [17; 3]] = [[0; 255]; [17; 3]].
Proof.
  apply (image_to_tensor_lossless [[0; 255]; [17; 3]] [[0; 255]; [17; 3]]).
  - repeat constructor; lia.
  - repeat constructor; lia.
  - reflexivity.
Defined.

(** X8. Normalisation reverses the order of intensities strictly: of two
    8-bit pixels the darker one has the larger value (more ink). *)
Theorem normalize_pixel_antitone (p q : Z) :
  0 <= p -> p < q -> q <= 255 ->
  SFltb (normalize_pixel q) (normalize_pixel p) = true.
Proof.
  intros Hp Hpq Hq.
  assert (Hall : let table := map (fun a => (a, normalize_pixel a)) pixels in
                 forallb (fun a =>
                   forallb (fun b => implb (fst a <? fst b) (SFltb (snd b) (snd a)))
                     table) table = true)
    by (vm_compute; reflexivity).
  cbn zeta in Hall. rewrite forallb_forall in Hall.
  assert (Hin : forall a, 0 <= a <= 255 ->
                In (a, normalize_pixel a) (map (fun a => (a, normalize_pixel a)) pixels)).
  { intros a Ha. apply in_map_iff. exists a. split; [reflexivity|].
    now apply pixel_in_pixels. }
  specialize (Hall _ (Hin p ltac:(lia))).
  rewrite forallb_forall in Hall.
  specialize (Hall _ (Hin q ltac:(lia))). cbn [fst snd] in Hall.
  destruct (Z.ltb_spec p q); [exact Hall | lia].
Qed.

Lemma normalize_pixel_antitone_witness :
  SFltb (normalize_pixel 200) (normalize_pixel 100) = true.
Proof.
  apply (normalize_pixel_antitone 100 200); lia.
Defined.

(** ** Augmented images *)

Lemma zip_with_length {A B C : Type} (f : A -> B -> C) (l1 : list A) (l2 : list B) :
  List.length (zip_with f l1 l2) = Nat.min (List.length l1) (List.length l2).
Proof.
  unfold zip_with. now rewrite length_map, length_combine.
Qed.

Lemma zip_with_Forall {A B C : Type} (f : A -> B -> C) (P : A -> Prop) (Q : B -> Prop)
    (R : C -> Prop) (l1 : list A) (l2 : list B) :
  (forall a b, P a -> Q b -> R (f a b)) ->
  Forall P l1 -> Forall Q l2 -> Forall R (zip_with f l1 l2).
Proof.
  intros Hf H1. revert l2. induction H1 as [|a l1 Ha _ IH]; intros l2 H2.
  - constructor.
  - destruct H2 as [|b l2 Hb H2]; [constructor|].
    unfold zip_with. cbn [combine map fst snd]. constructor; [now apply Hf|].
    now apply IH.
Qed.

Lemma zip_with_ext_Forall {A B C : Type} (f g : A -> B -> C) (P : A -> Prop)
    (Q : B -> Prop) (l1 : list A) (l2 : list B) :
  (forall a b, P a -> Q b -> f a b = g a b) ->
  Forall P l1 -> Forall Q l2 -> zip_with f l1 l2 = zip_with g l1 l2.
Proof.
  intros Hfg H1. revert l2. induction H1 as [|a l1 Ha _ IH]; intros l2 H2.
  - reflexivity.
  - destruct H2 as [|b l2 Hb H2]; [reflexivity|].
    unfold zip_with. cbn [combine map fst snd]. f_equal; [now apply Hfg|].
    now apply IH.
Qed.

Lemma add_noise_shape (result : image) (noise : list (list Z)) (h w : nat) :
  has_shape h w result -> rect h w noise -> has_shape h w (add_noise result noise).
Proof.
  intros [Hh Hw] [Nh Nw]. unfold add_noise. split.
  - rewrite zip_with_length. lia.
  - eapply zip_with_Forall; [|exact Hw|exact Nw].
    intros row nrow Hr Hn. cbn beta in *. rewrite zip_with_length. lia.
Qed.

Lemma rect_map {A B : Type} (f : A -> B) (h w : nat) (m : list (list A)) :
  rect h w m -> rect h w (map (map f) m).
Proof.
  intros [Hh Hw]. split; [now rewrite length_map|].
  apply Forall_map. eapply Forall_impl; [|exact Hw].
  intros row Hr. cbn beta. now rewrite length_map.
Qed.

Lemma image_shape_square (img : image) (h : nat) :
  has_shape h h img -> rect h h img /\ (img = [] \/ image_shape img = (h, h)).
Proof.
  intros [Hh Hw]. split; [now split|].
  destruct img as [|row img]; [now left|]. right.
  unfold image_shape. inversion Hw; subst. cbn [List.length] in *. congruence.
Qed.

(** X9. Whatever is drawn, [augment_image] returns a square image of 8-bit
    values whose side is the height of its input, [img.shape[0]] (Pillow
    and NumPy returning the sizes asked for). *)
Theorem augment_image_square
    (np : Numpy) (pil : Pillow) (img a : image) (seed : option Z) (g g' : rng np) :
  pillow_contract pil -> numpy_contract np ->
  augment_image np pil img seed g = Ok (a, g') ->
  has_shape (List.length img) (List.length img) a /\ is_uint8 a.
Proof.
  intros (Hresize & Hcrop & Hpaste) Hnormal H.
  split; [|eapply augment_image_uint8; exact H].
  unfold augment_image in H.
  destruct (match seed with Some s => np_random_seed np s | None => Ok g end)
    as [g0|e]; [|discriminate].
  cbn [bind] in H.
  destruct (np_random_uniform np (F64.of_Z (-15)) (F64.of_Z 15) g0) as [angle g1].
  destruct (np_random_uniform np (ratio 9 10) (ratio 11 10) g1) as [scale g2].
  destruct (float_of_int _) as [width|e]; [|discriminate]. cbn [bind] in H.
  destruct (py_int _) as [new_size|e]; [|discriminate]. cbn [bind] in H.
  destruct (pil_resize pil _ _ _) as [resized|e] eqn:Hres; [|discriminate].
  cbn [bind] in H. apply Hresize in Hres.
  set (n := List.length img) in *.
  assert (Hh : Z.to_nat (image_height img) = n)
    by (unfold image_height; apply Nat2Z.id).
  match type of H with
  | context [np_random_normal np 0 2 (image_shape ?r) g2] => set (result := r) in *
  end.
  assert (Hshape : has_shape n n result).
  { unfold result.
    destruct (Z.ltb_spec (image_height img) new_size) as [Hlt|Hge].
    - pose proof (Hcrop resized
                    ((new_size - image_height img) / 2)
                    ((new_size - image_height img) / 2)
                    ((new_size - image_height img) / 2 + image_height img)
                    ((new_size - image_height img) / 2 + image_height img)) as Hc.
      replace ((new_size - image_height img) / 2 + image_height img
               - (new_size - image_height img) / 2) with (image_height img) in Hc by lia.
      now rewrite Hh in Hc.
    - destruct (Z.ltb_spec new_size (image_height img)) as [Hlt|Hge'].
      + apply Hpaste. rewrite Hh. apply filled_shape.
      + replace new_size with (image_height img) in Hres by lia.
        now rewrite Hh in Hres. }
  destruct (np_random_normal np 0 2 (image_shape result) g2) as [noise g3] eqn:Hn.
  injection H as <- _.
  destruct (image_shape_square result n Hshape) as [_ [Hnil | Hsh]].
  - rewrite Hnil in *. destruct Hshape as [Hl _]. cbn in Hl. rewrite <- Hl.
    split; [reflexivity | constructor].
  - apply add_noise_shape; [exact Hshape|]. apply rect_map.
    pose proof (Hnormal 0 2 (image_shape result) g2) as Hr.
    rewrite Hn, Hsh in Hr. exact Hr.
Qed.

Lemma blank_pillow_contract : pillow_contract blank_pillow.
Proof.
  split; [|split].
  - intros img w h r H. cbn in H.
    destruct ((w <=? 0) || (h <=? 0)); [discriminate|]. injection H as <-.
    split; [apply repeat_length|].
    apply Forall_forall. intros row Hr. apply repeat_spec in Hr. subst.
    apply repeat_length.
  - intros img l u r b. cbn. split; [apply repeat_length|].
    apply Forall_forall. intros row Hr. apply repeat_spec in Hr. subst.
    apply repeat_length.
  - intros base img x y h w H. exact H.
Qed.

Lemma counter_numpy_contract : numpy_contract counter_numpy.
Proof.
  intros loc scale shp g. cbn. split; [apply repeat_length|].
  apply Forall_forall. intros row Hr. apply repeat_spec in Hr. subst.
  apply repeat_length.
Qed.

Lemma augment_image_square_witness :
  has_shape 2 2 [[248; 248]; [248; 248]] /\ is_uint8 [[248; 248]; [248; 248]].
Proof.
  apply (augment_image_square counter_numpy blank_pillow
           [[255; 255; 255]; [255; 255; 255]] [[248; 248]; [248; 248]]
           None (-9) (-6)).
  - apply blank_pillow_contract.
  - apply counter_numpy_contract.
  - vm_compute; reflexivity.
Defined.

(** ** Noise saturates *)

Lemma noisy_pixel_saturates (p n : Z) :
  0 <= p <= 255 -> INT32_MIN <= n <= 2 ^ 31 - 256 ->
  astype_uint8 (clip 0 255 (add_int32 p n)) = saturate (p + n).
Proof.
  unfold INT32_MIN, astype_uint8, clip, add_int32, saturate. intros Hp Hn.
  replace ((p + n + 2 ^ 31) mod 2 ^ 32) with (p + n + 2 ^ 31)
    by (symmetry; apply Z.mod_small; lia).
  rewrite Z.mod_small by lia. lia.
Qed.

(** X10. Adding noise saturates and never wraps around: on an 8-bit image,
    with noise between -2**31 and 2**31 - 256, every pixel of the result is
    pixel + noise held between 0 and 255. *)
Theorem add_noise_saturates (result : image) (noise : list (list Z)) :
  is_uint8 result ->
  Forall (Forall (fun n => INT32_MIN <= n <= 2 ^ 31 - 256)) noise ->
  add_noise result noise =
    zip_with (zip_with (fun p n => saturate (p + n))) result noise.
Proof.
  intros Hr Hn. unfold add_noise.
  eapply zip_with_ext_Forall; [|exact Hr|exact Hn].
  intros row nrow Hrow Hnrow.
  eapply zip_with_ext_Forall; [|exact Hrow|exact Hnrow].
  intros p n Hp Hpn. now apply noisy_pixel_saturates.
Qed.

Lemma add_noise_saturates_witness :
  add_noise [[0; 128; 255]] [[-3; 2; 4]] = [[0; 130; 255]].
Proof.
  rewrite (add_noise_saturates [[0; 128; 255]] [[-3; 2; 4]]).
  - reflexivity.
  - repeat constructor; lia.
  - repeat constructor; vm_compute; discriminate.
Defined.

(** ** Batches without augmentation *)

Lemma tensor_shape_shape3 (t : tensor3) (h w : nat) :
  (0 < h)%nat -> tensor_shape 1 h w t -> shape3 t = (1%nat, h, w).
Proof.
  intros Hh [Hl Hp]. destruct t as [|plane [|? ?]]; try discriminate.
  inversion Hp as [|? ? [Hrows Hcols] _]; subst.
  unfold shape3. cbn [List.length hd]. destruct plane as [|row plane]; [cbn in Hh; lia|].
  inversion Hcols; subst. reflexivity.
Qed.

Lemma np_stack_same_shape (arrays : list tensor3) (h w : nat) :
  arrays <> [] -> (0 < h)%nat -> Forall (tensor_shape 1 h w) arrays ->
  np_stack arrays = Ok arrays.
Proof.
  intros Hne Hh Hall. destruct arrays as [|a rest]; [congruence|].
  inversion Hall as [|? ? Ha Hrest]; subst. cbn [np_stack].
  replace (forallb (same_shape a) rest) with true; [reflexivity|].
  symmetry. apply forallb_forall. intros b Hb.
  rewrite Forall_forall in Hrest. specialize (Hrest b Hb).
  unfold same_shape.
  rewrite (tensor_shape_shape3 a h w Hh Ha), (tensor_shape_shape3 b h w Hh Hrest).
  now rewrite !Nat.eqb_refl.
Qed.

Section BatchProofs.

Variable np : Numpy.
Variable pil : Pillow.
Variable draw_line : image -> point2 -> point2 -> Z -> Z -> image.

Lemma preprocess_each_images (datas : list value) (images : list image)
    (size : Z) (g : rng np) :
  Forall2 (fun data img => strokes_to_image draw_line data size 2 4 = Ok img)
          datas images ->
  preprocess_each np pil draw_line datas size false g =
    Ok (map image_to_tensor images, g).
Proof.
  induction 1 as [|data img datas images Hd _ IH]; [reflexivity|].
  cbn [preprocess_each]. rewrite Hd. cbn [bind fst snd]. rewrite IH. reflexivity.
Qed.

Lemma preprocess_each_first_error (l1 l2 : list value) (bad : value) (e : exn)
    (size : Z) (g : rng np) :
  Forall (fun data => returns (strokes_to_image draw_line data size 2 4)) l1 ->
  strokes_to_image draw_line bad size 2 4 = Raise e ->
  preprocess_each np pil draw_line (l1 ++ bad :: l2) size false g = Raise e.
Proof.
  intros Hl1 Hbad. induction Hl1 as [|data l1 [img Hd] _ IH].
  - cbn [app preprocess_each]. now rewrite Hbad.
  - cbn [app preprocess_each]. rewrite Hd. cbn [bind fst snd]. now rewrite IH.
Qed.

End BatchProofs.

(** X11. Without augmentation [batch_preprocess] maps a non-empty list of
    valid drawings to the tensors of their images, one per drawing and in
    the order of the list; each is 1 by size by size with values in [0, 1],
    and the generator is left as it was. *)
Theorem batch_preprocess_in_order
    (np : Numpy) (pil : Pillow)
    (draw_line : image -> point2 -> point2 -> Z -> Z -> image)
    (draw_line_shape : forall img a b fill width h w,
        has_shape h w img -> has_shape h w (draw_line img a b fill width))
    (draw_line_uint8 : forall img a b width,
        is_uint8 img -> is_uint8 (draw_line img a b 0 width))
    (drawings : list Drawing) (size : Z) (g : rng np) :
  drawings <> [] -> 0 < size -> int_in_range (size - 2 * 4) ->
  Forall valid_drawing drawings ->
  let rasterize := fun d =>
    spec_render draw_line 2 (spec_segments (spec_scale size 4 (canvas_of d)) 4 d)
                (filled (Z.to_nat size) 255) in
  Forall (fun d => strokes_to_image draw_line (encode_drawing d) size 2 4
                   = Ok (rasterize d)) drawings /\
  batch_preprocess np pil draw_line (map encode_drawing drawings) size false g =
    Ok (map (fun d => image_to_tensor (rasterize d)) drawings, g) /\
  Forall (fun d => tensor_shape 1 (Z.to_nat size) (Z.to_nat size)
                     (image_to_tensor (rasterize d)) /\
                   tensor_in_unit (image_to_tensor (rasterize d))) drawings.
Proof.
  intros Hne Hsize Hn Hvalid rasterize.
  assert (Hpad : int_in_range 4) by (vm_compute; reflexivity).
  assert (Himg : Forall (fun d => strokes_to_image draw_line (encode_drawing d) size 2 4
                                  = Ok (rasterize d)) drawings).
  { eapply Forall_impl; [|exact Hvalid]. intros d Hd.
    apply strokes_to_image_valid; [lia | assumption..]. }
  assert (Hts : Forall (fun d => tensor_shape 1 (Z.to_nat size) (Z.to_nat size)
                                   (image_to_tensor (rasterize d)) /\
                                 tensor_in_unit (image_to_tensor (rasterize d))) drawings).
  { apply Forall_forall. intros d _.
    destruct (spec_render_invariant draw_line draw_line_shape draw_line_uint8 2
                (spec_segments (spec_scale size 4 (canvas_of d)) 4 d)
                (filled (Z.to_nat size) 255) (Z.to_nat size) (Z.to_nat size))
      as [Hs Hp]; [apply filled_shape | apply filled_uint8; lia |].
    split; [now apply image_to_tensor_shape | now apply image_to_tensor_unit]. }
  split; [exact Himg|]. split; [|exact Hts].
  unfold batch_preprocess.
  rewrite (preprocess_each_images np pil draw_line (map encode_drawing drawings)
             (map rasterize drawings) size g).
  - cbn [bind fst snd]. rewrite map_map.
    rewrite (np_stack_same_shape _ (Z.to_nat size) (Z.to_nat size)); [reflexivity| | |].
    + destruct drawings; [congruence | discriminate].
    + lia.
    + apply Forall_map. eapply Forall_impl; [|exact Hts]. now intros d [Hs _].
  - clear -Himg. induction Himg as [|d ds Hd _ IH]; cbn [map]; constructor; assumption.
Qed.

Lemma batch_preprocess_in_order_witness :
  batch_preprocess counter_numpy still_pillow flood_line
    (map encode_drawing [sample_stroke_data; plain_drawing sample_stroke_data])
    64 false 0 =
  Ok (map (fun d => image_to_tensor
                      (spec_render flood_line 2
                         (spec_segments (spec_scale 64 4 (canvas_of d)) 4 d)
                         (filled (Z.to_nat 64) 255)))
          [sample_stroke_data; plain_drawing sample_stroke_data], 0).
Proof.
  apply (batch_preprocess_in_order counter_numpy still_pillow flood_line
           flood_line_shape flood_line_uint8
           [sample_stroke_data; plain_drawing sample_stroke_data] 64 0).
  - discriminate.
  - lia.
  - vm_compute; reflexivity.
  - constructor; [|constructor; [|constructor]];
      (split; [split; reflexivity|];
       repeat (constructor; try (split; vm_compute; reflexivity))).
Defined.

(** X12. Without augmentation the first drawing that cannot be rasterized
    fails the whole batch with its exception, whatever follows it: no
    partial batch is returned and no item is dropped. *)
Theorem batch_preprocess_first_error
    (np : Numpy) (pil : Pillow)
    (draw_line : image -> point2 -> point2 -> Z -> Z -> image)
    (l1 l2 : list value) (bad : value) (e : exn) (size : Z) (g : rng np) :
  Forall (fun data => returns (strokes_to_image draw_line data size 2 4)) l1 ->
  strokes_to_image draw_line bad size 2 4 = Raise e ->
  batch_preprocess np pil draw_line (l1 ++ bad :: l2) size false g = Raise e.
Proof.
  intros Hl1 Hbad. unfold batch_preprocess.
  now rewrite (preprocess_each_first_error np pil draw_line l1 l2 bad e size g Hl1 Hbad).
Qed.

Lemma batch_preprocess_first_error_witness :
  batch_preprocess counter_numpy still_pillow flood_line
    ([encode_drawing sample_stroke_data]
     ++ VDict [("canvas", encode_canvas (NInt 0, NInt 0))]
     :: [VNone]) 64 false 0 = Raise ZeroDivisionError.
Proof.
  apply (batch_preprocess_first_error counter_numpy still_pillow flood_line
           [encode_drawing sample_stroke_data] [VNone]
           (VDict [("canvas", encode_canvas (NInt 0, NInt 0))]) ZeroDivisionError 64 0).
  - constructor; [|constructor]. eexists. vm_compute. reflexivity.
  - vm_compute; reflexivity.
Defined.

(** ** The classifier: parameters and input sizes *)

(** X13. A [DoodleNet] for [n] classes has 268544 + 513 * n trainable
    parameters (271109 for the five classes of the default). *)
Theorem count_parameters_DoodleNet (num_classes : nat) :
  count_parameters (DoodleNet_init num_classes) = 268544 + 513 * Z.of_nat num_classes.
Proof.
  unfold count_parameters, DoodleNet_modules, DoodleNet_init, DepthwiseSeparableConv_init.
  cbn [conv1 features avgpool classifier flat_map app depthwise pointwise bn1 bn2
       layer_parameters map numel fold_right].
  cbn [Nat.div Nat.divmod fst snd Nat.sub]. lia.
Qed.

Lemma shape_through_app (training : bool) (l1 l2 : list layer) (s : shape) :
  shape_through training (l1 ++ l2)%list s =
    (s' <- shape_through training l1 s ;; shape_through training l2 s').
Proof.
  revert s. induction l1 as [|l l1 IH]; intros s; [reflexivity|].
  cbn [app shape_through]. destruct (shape_of training l s); [|reflexivity].
  cbn [bind]. apply IH.
Qed.

Lemma conv_out_pos (n k stride padding : nat) : (1 <= conv_out n k stride padding)%nat.
Proof. unfold conv_out. lia. Qed.

Lemma conv_out_pointwise (n : nat) : (1 <= n)%nat -> conv_out n 1 1 0 = n.
Proof.
  intros Hn. unfold conv_out. rewrite Nat.div_1_r. lia.
Qed.

Lemma conv3_shape (cin cout stride groups n h w : nat) :
  (1 <= h)%nat -> (1 <= w)%nat ->
  shape_of false (Conv2d cin cout 3 stride 1 groups) [n; cin; h; w] =
    Ok [n; cout; conv_out h 3 stride 1; conv_out w 3 stride 1].
Proof.
  intros Hh Hw. cbn [shape_of]. rewrite Nat.eqb_refl.
  replace (Nat.leb 3 (h + 2 * 1)) with true by (symmetry; apply Nat.leb_le; lia).
  replace (Nat.leb 3 (w + 2 * 1)) with true by (symmetry; apply Nat.leb_le; lia).
  reflexivity.
Qed.

Lemma bn_eval_shape (c n h w : nat) :
  shape_of false (BatchNorm2d c) [n; c; h; w] = Ok [n; c; h; w].
Proof.
  cbn [shape_of]. now rewrite Nat.eqb_refl.
Qed.

Lemma block_eval_shape (cin cout stride n h w : nat) :
  (1 <= h)%nat -> (1 <= w)%nat ->
  shape_through false
    (DepthwiseSeparableConv_forward (DepthwiseSeparableConv_init cin cout stride))
    [n; cin; h; w] =
  Ok [n; cout; conv_out h 3 stride 1; conv_out w 3 stride 1].
Proof.
  intros Hh Hw.
  unfold DepthwiseSeparableConv_forward, DepthwiseSeparableConv_init.
  cbn [depthwise pointwise bn1 bn2 shape_through].
  rewrite conv3_shape by assumption. cbn [bind].
  rewrite bn_eval_shape. cbn [bind]. cbn [shape_of bind].
  pose proof (conv_out_pos h 3 stride 1) as Hh'.
  pose proof (conv_out_pos w 3 stride 1) as Hw'.
  set (h' := conv_out h 3 stride 1) in *. set (w' := conv_out w 3 stride 1) in *.
  rewrite Nat.eqb_refl.
  replace (Nat.leb 1 (h' + 2 * 0)) with true by (symmetry; apply Nat.leb_le; lia).
  replace (Nat.leb 1 (w' + 2 * 0)) with true by (symmetry; apply Nat.leb_le; lia).
  cbn [andb bind]. rewrite !conv_out_pointwise by assumption.
  rewrite Nat.eqb_refl. reflexivity.
Qed.

Lemma DoodleNet_eval_shape (num_classes n h w : nat) :
  (1 <= h)%nat -> (1 <= w)%nat ->
  shape_through false (DoodleNet_forward_layers (eval_mode (DoodleNet_init num_classes)))
    [n; 1; h; w]%nat = Ok [n; num_classes].
Proof.
  intros Hh Hw. unfold DoodleNet_forward_layers, eval_mode, DoodleNet_init.
  cbn [conv1 features avgpool classifier flat_map].
  rewrite shape_through_app. cbn [shape_through].
  rewrite conv3_shape by assumption. cbn [bind].
  rewrite bn_eval_shape. cbn [bind shape_of].
  pose proof (conv_out_pos h 3 2 1) as Hh0. pose proof (conv_out_pos w 3 2 1) as Hw0.
  set (h0 := conv_out h 3 2 1) in *. set (w0 := conv_out w 3 2 1) in *.
  rewrite !shape_through_app.
  rewrite ?shape_through_app; rewrite block_eval_shape by assumption; cbn [bind].
  pose proof (conv_out_pos h0 3 1 1) as Hh1. pose proof (conv_out_pos w0 3 1 1) as Hw1.
  rewrite ?shape_through_app; rewrite block_eval_shape by assumption; cbn [bind].
  set (h1 := conv_out h0 3 1 1) in *. set (w1 := conv_out w0 3 1 1) in *.
  pose proof (conv_out_pos h1 3 2 1) as Hh2. pose proof (conv_out_pos w1 3 2 1) as Hw2.
  rewrite ?shape_through_app; rewrite block_eval_shape by assumption; cbn [bind].
  set (h2 := conv_out h1 3 2 1) in *. set (w2 := conv_out w1 3 2 1) in *.
  pose proof (conv_out_pos h2 3 1 1) as Hh3. pose proof (conv_out_pos w2 3 1 1) as Hw3.
  rewrite ?shape_through_app; rewrite block_eval_shape by assumption; cbn [bind].
  set (h3 := conv_out h2 3 1 1) in *. set (w3 := conv_out w2 3 1 1) in *.
  pose proof (conv_out_pos h3 3 2 1) as Hh4. pose proof (conv_out_pos w3 3 2 1) as Hw4.
  rewrite ?shape_through_app; rewrite block_eval_shape by assumption; cbn [bind].
  set (h4 := conv_out h3 3 2 1) in *. set (w4 := conv_out w3 3 2 1) in *.
  pose proof (conv_out_pos h4 3 1 1) as Hh5. pose proof (conv_out_pos w4 3 1 1) as Hw5.
  rewrite ?shape_through_app; rewrite block_eval_shape by assumption; cbn [bind].
  set (h5 := conv_out h4 3 1 1) in *. set (w5 := conv_out w4 3 1 1) in *.
  pose proof (conv_out_pos h5 3 2 1) as Hh6. pose proof (conv_out_pos w5 3 2 1) as Hw6.
  set (h6 := conv_out h5 3 2 1) in *. set (w6 := conv_out w5 3 2 1) in *.
  cbn [shape_through app shape_of].
  clearbody h6 w6. destruct h6 as [|h6]; [lia|]. destruct w6 as [|w6]; [lia|].
  reflexivity.
Qed.

(** X14. In evaluation mode the classifier takes single-channel images of
    any size, not only 64 by 64: a batch of shape (N, 1, H, W) with H and W
    at least 1 gives logits of shape (N, num_classes). *)
Theorem forward_any_input_size
    (T : Torch) (contract : torch_contract T)
    (num_classes n h w : nat) (x : Tensor T) (st : torch_state T) :
  (1 <= h)%nat -> (1 <= w)%nat ->
  tensor_dims T x = [n; 1; h; w]%nat ->
  exists logits st',
    forward T (eval_mode (DoodleNet_init num_classes)) x st = Ok (logits, st') /\
    tensor_dims T logits = [n; num_classes].
Proof.
  intros Hh Hw Hx. rewrite forward_layers.
  apply (apply_layers_shape T contract). rewrite Hx.
  now apply DoodleNet_eval_shape.
Qed.

Lemma forward_any_input_size_witness :
  exists logits st',
    forward shape_torch (eval_mode (DoodleNet_init 3)) [7; 1; 28; 50]%nat tt =
      Ok (logits, st') /\
    tensor_dims shape_torch logits = [7; 3]%nat.
Proof.
  apply (forward_any_input_size shape_torch shape_torch_contract 3 7 28 50
           [7; 1; 28; 50]%nat tt); [lia | lia | reflexivity].
Defined.

(** X15. A batch whose images do not have exactly one channel is refused
    by the first convolution: [forward] raises [RuntimeError]. *)
Theorem forward_wrong_channels
    (T : Torch) (errors : torch_error_contract T)
    (num_classes n c h w : nat) (mode : bool) (x : Tensor T) (st : torch_state T) :
  c <> 1%nat ->
  tensor_dims T x = [n; c; h; w] ->
  forward T (if mode then DoodleNet_init num_classes
             else eval_mode (DoodleNet_init num_classes)) x st = Raise RuntimeError.
Proof.
  intros Hc Hx.
  assert (Hconv : forall training,
             apply_layer T training (Conv2d 1 32 3 2 1 1) x st = Raise RuntimeError).
  { intros training. apply errors. rewrite Hx. cbn [shape_of].
    replace (Nat.eqb c 1) with false by (symmetry; now apply Nat.eqb_neq).
    reflexivity. }
  destruct mode; unfold forward; cbn [conv1 DoodleNet_init eval_mode training apply_layers];
    rewrite Hconv; reflexivity.
Qed.

Lemma shape_torch_error_contract : torch_error_contract shape_torch.
Proof.
  intros training l x st e H. cbn [apply_layer shape_torch tensor_dims] in *.
  now rewrite H.
Qed.

Lemma forward_wrong_channels_witness :
  forward shape_torch (DoodleNet_init 5) [2; 3; 64; 64]%nat tt = Raise RuntimeError.
Proof.
  apply (forward_wrong_channels shape_torch shape_torch_error_contract 5 2 3 64 64 true
           [2; 3; 64; 64]%nat tt); [discriminate | reflexivity].
Defined.

(** ** Construction without weights *)

(** X18. Without a path, and with the empty string as path, [create_model]
    returns the classifier as constructed and reads no file; when the file
    cannot be read the error of [torch.load] is raised. *)
Theorem create_model_without_weights (W : Weights) (num_classes : nat) :
  create_model W num_classes None =
    Ok {| net := DoodleNet_init num_classes; params := fresh_params W num_classes |} /\
  create_model W num_classes (Some "") =
    Ok {| net := DoodleNet_init num_classes; params := fresh_params W num_classes |} /\
  (forall path e,
     path <> "" -> torch_load W path = Raise e ->
     create_model W num_classes (Some path) = Raise e).
Proof.
  split; [reflexivity|]. split; [reflexivity|].
  intros path e Hpath Hload. unfold create_model.
  assert (Htruthy : truthy (Some path) = true).
  { cbn [truthy]. destruct (String.eqb_spec path ""); [contradiction | reflexivity]. }
  rewrite Htruthy, Hload. reflexivity.
Qed.

Lemma create_model_without_weights_witness :
  create_model list_weights 5 (Some "missing.pt") = Raise RuntimeError.
Proof.
  apply (create_model_without_weights list_weights 5); [discriminate | reflexivity].
Defined.
